(** * novelai: a shallow embedding of the conversation core

    The Go package [novelai] keeps a role-tagged message history, renders it
    as one GLM prompt string, posts it to a completions endpoint, decodes the
    buffered or streamed answer and merges assistant turns that a token limit
    split in two.  This development embeds that code and proves the
    properties its specification states about it.

    Conventions.
    - A Go [string] is a sequence of bytes: [string] of [Stdlib.Strings],
      one [ascii] per byte.  [len(s)] is [String.length].
    - A Go [int] is a 64-bit two's complement integer: [Z] with the
      wrap-around of [+=] written out ([int_add]).
    - A Go [float64] is an IEEE 754 binary64: the kernel's [float].
    - A method with a pointer receiver takes the [Conversation] and returns
      the updated one; the HTTP client and the server behind it are an
      explicit [Transport] value that is threaded alongside. *)

From Stdlib Require Import String Ascii List ZArith Lia Bool Arith.
From Stdlib Require Import Floats.
Import ListNotations.
Local Open Scope string_scope.

Set Implicit Arguments.

(* ===================================================================== *)
(** ** The functions of Go's [strings] package that the code calls        *)
(* ===================================================================== *)

Module GoStrings.

(** A string given by the values of its bytes. *)
Definition bytes (l : list nat) : string :=
  string_of_list_ascii (map ascii_of_nat l).

Definition tab : string := bytes [9%nat].
Definition lf : string := bytes [10%nat].
Definition cr : string := bytes [13%nat].
(** The double quote character. *)
Definition dquote : string := bytes [34%nat].

(** [c] is one of the bytes of [cutset]. *)
Definition byteIn (cutset : string) (c : ascii) : bool :=
  existsb (Ascii.eqb c) (list_ascii_of_string cutset).

(** [strings.TrimRight(s, cutset)] for a cutset of ASCII bytes (the only
    kind the package passes): the longest suffix made of cutset bytes is
    removed. *)
Fixpoint TrimRight (s cutset : string) : string :=
  match s with
  | EmptyString => EmptyString
  | String c s' =>
      match TrimRight s' cutset with
      | EmptyString =>
          if byteIn cutset c then EmptyString else String c EmptyString
      | t => String c t
      end
  end.

(** The UTF-8 encodings of the code points [unicode.IsSpace] accepts:
    U+0009..U+000D, U+0020, U+0085, U+00A0, U+1680, U+2000..U+200A,
    U+2028, U+2029, U+202F, U+205F and U+3000.  An invalid or truncated
    sequence decodes to [utf8.RuneError], which is no space, so a space is
    found at an end of a string exactly when one of these byte sequences
    is; no sequence is a proper suffix or prefix of another. *)
Definition spaceTokens : list string :=
  map bytes
    ([[9]; [10]; [11]; [12]; [13]; [32];
      [194; 133]; [194; 160];
      [225; 154; 128]]
     ++ map (fun k => [226; 128; 128 + k]) (seq 0 11)
     ++ [[226; 128; 168]; [226; 128; 169]; [226; 128; 175];
         [226; 129; 159]; [227; 128; 128]])%nat%list.

Definition isSpaceToken (s : string) : bool :=
  existsb (String.eqb s) spaceTokens.

(** [strings.TrimLeftFunc(s, unicode.IsSpace)]. *)
Fixpoint trimLeftSpace (s : string) : string :=
  match s with
  | EmptyString => s
  | String c1 r1 =>
      if isSpaceToken (String c1 EmptyString) then trimLeftSpace r1
      else
        match r1 with
        | EmptyString => s
        | String c2 r2 =>
            if isSpaceToken (String c1 (String c2 EmptyString))
            then trimLeftSpace r2
            else
              match r2 with
              | EmptyString => s
              | String c3 r3 =>
                  if isSpaceToken
                       (String c1 (String c2 (String c3 EmptyString)))
                  then trimLeftSpace r3
                  else s
              end
        end
  end.

(** [strings.TrimRightFunc(s, unicode.IsSpace)]: with the tail already
    trimmed, a space can only end the string when the whole rest is one. *)
Fixpoint trimRightSpace (s : string) : string :=
  match s with
  | EmptyString => EmptyString
  | String c s' =>
      let t := trimRightSpace s' in
      if isSpaceToken (String c t) then EmptyString else String c t
  end.

(** [strings.TrimSpace(s)]: leading, then trailing white space removed. *)
Definition TrimSpace (s : string) : string :=
  trimRightSpace (trimLeftSpace s).

(** [strings.CutPrefix(s, p)]: what follows [p] when [s] starts with it. *)
Fixpoint CutPrefix (s p : string) {struct p} : option string :=
  match p, s with
  | EmptyString, _ => Some s
  | String a p', String b s' =>
      if Ascii.eqb a b then CutPrefix s' p' else None
  | String _ _, EmptyString => None
  end.

(** [strings.HasPrefix] and [strings.TrimPrefix]. *)
Definition HasPrefix (s p : string) : bool :=
  match CutPrefix s p with Some _ => true | None => false end.

Definition TrimPrefix (s p : string) : string :=
  match CutPrefix s p with Some rest => rest | None => s end.

(** The number of positions of [s] at which [sub] starts. *)
Fixpoint occurrences (sub s : string) : nat :=
  match s with
  | EmptyString => if HasPrefix EmptyString sub then 1 else 0
  | String _ s' =>
      (if HasPrefix s sub then 1 else 0) + occurrences sub s'
  end.

(** [strings.Contains]. *)
Definition Contains (s sub : string) : bool :=
  negb (Nat.eqb (occurrences sub s) 0).

End GoStrings.
Import GoStrings.

(* ===================================================================== *)
(** ** Machine integers                                                   *)
(* ===================================================================== *)

(** The value a 64-bit signed register holds after it is given [z]. *)
Definition wrap64 (z : Z) : Z :=
  ((z + 2 ^ 63) mod 2 ^ 64 - 2 ^ 63)%Z.

(** Go's [+] on [int]. *)
Definition int_add (a b : Z) : Z := wrap64 (a + b).

(** Go's [len(s)] as an [int]. *)
Definition len (s : string) : Z := Z.of_nat (String.length s).

(* ===================================================================== *)
(** ** types.go: settings, messages and the wire formats                  *)
(* ===================================================================== *)

(** The types are those of the revision of types.go that declares
    [ThinkFormat]; the older revision in the sources has the same structs
    without the think format, the stream options and the usage of a
    chunk. *)

(** How thinking mode is switched off for a model family. *)
Record ThinkFormat := {
  UserSuffix : string;
  AssistantPrefix : string
}.

Definition ThinkFormatGLM46 : ThinkFormat :=
  {| UserSuffix := "/nothink"; AssistantPrefix := "</think>" ++ lf |}.

Definition ThinkFormatGLM47 : ThinkFormat :=
  {| UserSuffix := "/nothink"; AssistantPrefix := "</think>" |}.

Definition ThinkFormatNone : ThinkFormat :=
  {| UserSuffix := EmptyString; AssistantPrefix := EmptyString |}.

(** [Settings]; the [*ThinkFormat] field is [None] when the pointer is nil. *)
Record Settings := {
  Model : string;
  MaxTokens : Z;
  Temperature : float;
  TopP : float;
  TopK : Z;
  MinP : float;
  FrequencyPenalty : float;
  PresencePenalty : float;
  RepetitionPenalty : float;
  StopSequences : list string;
  Thinking : bool;
  SettingsThinkFormat : option ThinkFormat
}.

Definition DefaultSettings : Settings :=
  {| Model := "glm-4-6";
     MaxTokens := 2048;
     Temperature := 1%float;
     TopP := 0x1.ccccccccccccdp-1%float;
     TopK := 0;
     MinP := 0%float;
     FrequencyPenalty := 0%float;
     PresencePenalty := 0%float;
     RepetitionPenalty := 0%float;
     StopSequences := ["<|user|>"; "<|system|>"];
     Thinking := false;
     SettingsThinkFormat := Some ThinkFormatGLM46 |}.

Record Message := {
  Role : string;
  Content : string
}.

Record Usage := {
  InputTokens : Z;
  OutputTokens : Z
}.

(** The three fields of [llmapi.Sampling] that [Send] reads. *)
Record Sampling := {
  SamplingTemperature : float;
  SamplingTopP : float;
  SamplingTopK : Z
}.

Record streamOptions := {
  IncludeUsage : bool
}.

Record completionRequest := {
  ReqModel : string;
  ReqPrompt : string;
  ReqMaxTokens : Z;
  ReqTemperature : float;
  ReqTopP : float;
  ReqTopK : Z;
  ReqMinP : float;
  ReqFrequencyPenalty : float;
  ReqPresencePenalty : float;
  ReqRepetitionPenalty : float;
  ReqStream : bool;
  ReqStreamOptions : option streamOptions;
  ReqStop : list string
}.

Record ResponseChoice := {
  Index : Z;
  Text : string;
  FinishReason : string
}.

Record ResponseUsage := {
  PromptTokens : Z;
  CompletionTokens : Z;
  TotalTokens : Z
}.

Record completionResponse := {
  RespID : string;
  RespObject : string;
  RespCreated : Z;
  RespModel : string;
  Choices : list ResponseChoice;
  RespUsage : ResponseUsage
}.

(** A choice of a streamed chunk: [finish_reason] is a [*string]. *)
Record ChunkChoice := {
  ChunkIndex : Z;
  ChunkText : string;
  ChunkFinishReason : option string
}.

Record streamChunk := {
  ChunkID : string;
  ChunkObject : string;
  ChunkCreated : Z;
  ChunkModel : string;
  ChunkChoices : list ChunkChoice;
  ChunkUsage : option ResponseUsage
}.

(* ===================================================================== *)
(** ** api.go: the conversation                                           *)
(* ===================================================================== *)

(** The [Conversation] struct.  [HttpClient] is the [Transport] below;
    [Tools] is stored for interface compliance only and is left out. *)
Record Conversation := {
  System : string;
  Messages : list Message;
  ConvUsage : Usage;
  ApiToken : string;
  ConvSettings : Settings
}.

Definition setMessages (c : Conversation) (ms : list Message) : Conversation :=
  {| System := System c; Messages := ms; ConvUsage := ConvUsage c;
     ApiToken := ApiToken c; ConvSettings := ConvSettings c |}.

Definition setUsage (c : Conversation) (u : Usage) : Conversation :=
  {| System := System c; Messages := Messages c; ConvUsage := u;
     ApiToken := ApiToken c; ConvSettings := ConvSettings c |}.

(** [DefaultApiToken] is read from the environment when the package is
    loaded, so [NewConversation] takes it as an argument. *)
Definition NewConversation (DefaultApiToken system : string) : Conversation :=
  {| System := system; Messages := []; ConvUsage := {| InputTokens := 0; OutputTokens := 0 |};
     ApiToken := DefaultApiToken; ConvSettings := DefaultSettings |}.

(** [c.Messages = append(c.Messages, Message{Role: role, Content: content})] *)
Definition AddMessage (role content : string) (c : Conversation) : Conversation :=
  setMessages c (Messages c ++ [{| Role := role; Content := content |}]).

Definition Clear (c : Conversation) : Conversation :=
  setUsage (setMessages c []) {| InputTokens := 0; OutputTokens := 0 |}.

(** GLM special tokens. *)
Definition glmPrefix : string := "[gMASK]<sop>".
Definition glmSystem : string := "<|system|>".
Definition glmUser : string := "<|user|>".
Definition glmAssistant : string := "<|assistant|>".
Definition glmNoThink : string := "/nothink".

(** One turn of the loop of [buildPrompt]: what the [switch] on the role
    writes to the builder [b] for the message at index [i] of [n]. *)
Definition writeMessage (thinking : bool) (n i : Z) (msg : Message)
    (b : string) : string :=
  let isLastMessage := (i =? n - 1)%Z in
  if Role msg =? "user" then
    let b := b ++ glmUser in
    let b := b ++ lf in
    let b := b ++ Content msg in
    let b := if isLastMessage && negb thinking then b ++ glmNoThink else b in
    b ++ lf
  else if Role msg =? "assistant" then
    let b := b ++ glmAssistant in
    let b := b ++ lf in
    let b := b ++ Content msg in
    b ++ lf
  else if Role msg =? "system" then
    let b := b ++ glmSystem in
    let b := b ++ lf in
    let b := b ++ Content msg in
    b ++ lf
  else b.

(** [for i, msg := range c.Messages { ... }] over the builder. *)
Fixpoint writeMessages (thinking : bool) (n i : Z) (ms : list Message)
    (b : string) : string :=
  match ms with
  | [] => b
  | msg :: rest =>
      writeMessages thinking n (i + 1) rest (writeMessage thinking n i msg b)
  end.

Definition buildPrompt (c : Conversation) : string :=
  let thinking := Thinking (ConvSettings c) in
  let b := glmPrefix in
  let b :=
    if negb (System c =? EmptyString) then
      let b := b ++ glmSystem in
      let b := b ++ lf in
      let b := b ++ System c in
      b ++ lf
    else b in
  let b :=
    writeMessages thinking (Z.of_nat (length (Messages c))) 0 (Messages c) b in
  let b := b ++ glmAssistant in
  let b := b ++ lf in
  if negb thinking then b ++ ("<think></think>" ++ lf) else b.

Definition normalizeStopReason (reason : string) : string :=
  if reason =? "stop" then "end_turn"
  else if reason =? "length" then "max_tokens"
  else if reason =? "tool_calls" then "tool_use"
  else reason.

(** [c.Messages[i].Content = content], for [i] within the slice. *)
Fixpoint setContentAt (i : nat) (content : string) (ms : list Message)
    : list Message :=
  match ms, i with
  | [], _ => []
  | m :: rest, O => {| Role := Role m; Content := content |} :: rest
  | m :: rest, S i' => m :: setContentAt i' content rest
  end.

(** The cutset of the [TrimRight] call: space, tab, line feed, return. *)
Definition mergeCutset : string := " " ++ tab ++ lf ++ cr.

(** [MergeIfLastTwoAssistant] on the slice of messages. *)
Definition mergeLastTwo (ms : list Message) : list Message :=
  if (length ms <? 2)%nat then ms
  else
    let lastIdx := (length ms - 1)%nat in
    let secondLastIdx := (lastIdx - 1)%nat in
    match nth_error ms lastIdx, nth_error ms secondLastIdx with
    | Some last, Some secondLast =>
        if negb (Role last =? "assistant")
           || negb (Role secondLast =? "assistant")
        then ms
        else
          let merged := TrimRight (Content secondLast) mergeCutset in
          let merged := merged ++ TrimSpace (Content last) in
          firstn lastIdx (setContentAt secondLastIdx merged ms)
    | _, _ => ms
    end.

Definition MergeIfLastTwoAssistant (c : Conversation) : Conversation :=
  setMessages c (mergeLastTwo (Messages c)).

(* ===================================================================== *)
(** ** The HTTP client and the JSON decoder, as the code sees them         *)
(* ===================================================================== *)

(** A line a [bufio.Scanner] delivers: [scanner.Text()], and what
    [scanner.Err()] would return at that moment (the scanner reads ahead,
    so a failed read can be on record while buffered lines are still being
    handed out). *)
Record ScanLine := {
  lineText : string;
  pendingErr : option string
}.

(** A response body, by the two ways the code reads one: [io.ReadAll]
    returns [bodyData] and [bodyErr]; a [bufio.Scanner] delivers the lines
    [scanLines] and then stops with [scanErr] as [scanner.Err()] (a failed
    read, or a line the scanner cannot hold; [None] at the end of the
    body). *)
Record Body := {
  bodyData : string;
  bodyErr : option string;
  scanLines : list ScanLine;
  scanErr : option string
}.

(** What [client.Do] returns: an error, or a response. *)
Inductive HttpResult :=
| DoError (cause : string)
| DoResponse (StatusCode : Z) (body : Body).

(** The client with the server behind it: the outcomes of the calls still
    to come, in order, and the requests sent so far.  A call made when no
    outcome is left fails, as on a dead network. *)
Record Transport := {
  outcomes : list HttpResult;
  requests : list completionRequest
}.

Definition Do (req : completionRequest) (w : Transport)
    : HttpResult * Transport :=
  match outcomes w with
  | [] =>
      (DoError "connection refused",
       {| outcomes := []; requests := requests w ++ [req] |})
  | r :: rest =>
      (r, {| outcomes := rest; requests := requests w ++ [req] |})
  end.

(** The number of calls the transport has served. *)
Definition calls (w : Transport) : nat := length (requests w).

(** [encoding/json], for the two types the package decodes: [None] when
    [json.Unmarshal] returns an error. *)
Class Json := {
  unmarshalResponse : string -> option completionResponse;
  unmarshalChunk : string -> option streamChunk
}.

(** [json.Marshal] of a request fails exactly on a float that is NaN or
    infinite. *)
Definition finite (x : float) : bool :=
  negb (PrimFloat.is_nan x || PrimFloat.is_infinity x).

Definition marshalOk (r : completionRequest) : bool :=
  finite (ReqTemperature r) && finite (ReqTopP r) && finite (ReqMinP r)
  && finite (ReqFrequencyPenalty r) && finite (ReqPresencePenalty r)
  && finite (ReqRepetitionPenalty r).

(** The errors [Send] and [SendStreaming] build with [fmt.Errorf]. *)
Inductive SendError :=
| ErrNoToken                               (* API token not set *)
| ErrNoMessages                            (* cannot generate: no messages *)
| ErrMarshal                               (* error marshaling request *)
| ErrHTTP (retries : nat) (cause : string) (* HTTP error after n retries *)
| ErrReadBody (cause : string)             (* error reading response *)
| ErrAPIStatus (status : Z) (body : string) (* API error (status n): body *)
| ErrParse                                 (* error parsing response *)
| ErrNoChoices                             (* no choices in response *)
| ErrReadStream (cause : string).          (* error reading stream *)

(** The five results of [Send]; [err = None] is Go's [nil]. *)
Record SendOut := {
  reply : string;
  stopReason : string;
  inputTokens : Z;
  outputTokens : Z;
  err : option SendError
}.

Definition failed (e : SendError) : SendOut :=
  {| reply := EmptyString; stopReason := EmptyString;
     inputTokens := 0; outputTokens := 0; err := Some e |}.

(** HTTP retry configuration. *)
Definition retries : nat := 3.

(** The retry loop: [client.Do] until it returns no error, at most
    [left] more times after the first (the sleeps between attempts are
    not modelled). *)
Fixpoint doWithRetries (left : nat) (req : completionRequest)
    (w : Transport) : HttpResult * Transport :=
  let '(r, w1) := Do req w in
  match r, left with
  | DoError _, S left' => doWithRetries left' req w1
  | _, _ => (r, w1)
  end.

Definition StatusOK : Z := 200.

(** The opening of [Send] and [SendStreaming]: the user turn. *)
Definition addUserTurn (text : string) (c : Conversation)
    : option Conversation :=
  if negb (text =? EmptyString) then Some (AddMessage "user" text c)
  else if (length (Messages c) =? 0)%nat then None
  else Some c.

Definition addUsage (inTok outTok : Z) (c : Conversation) : Conversation :=
  setUsage c
    {| InputTokens := int_add (InputTokens (ConvUsage c)) inTok;
       OutputTokens := int_add (OutputTokens (ConvUsage c)) outTok |}.

Section WithJson.
Context `{Json}.

(** [Send] of api.go.  Three branches of the Go text cannot be taken and
    are left out: [http.NewRequest] does not fail on the constant method
    and URL, [client.Do] returns a response whenever it returns no error,
    and closing the body has no effect on the results. *)
Definition Send (text : string) (sampling : Sampling) (c : Conversation)
    (w : Transport) : SendOut * Conversation * Transport :=
  if ApiToken c =? EmptyString then (failed ErrNoToken, c, w)
  else
    match addUserTurn text c with
    | None => (failed ErrNoMessages, c, w)
    | Some c =>
        let prompt := buildPrompt c in
        let temperature :=
          if negb (SamplingTemperature sampling =? 0)%float
          then SamplingTemperature sampling
          else Temperature (ConvSettings c) in
        let topP :=
          if negb (SamplingTopP sampling =? 0)%float
          then SamplingTopP sampling
          else TopP (ConvSettings c) in
        let topK :=
          if negb (SamplingTopK sampling =? 0)%Z
          then SamplingTopK sampling
          else TopK (ConvSettings c) in
        let req :=
          {| ReqModel := Model (ConvSettings c);
             ReqPrompt := prompt;
             ReqMaxTokens := MaxTokens (ConvSettings c);
             ReqTemperature := temperature;
             ReqTopP := topP;
             ReqTopK := topK;
             ReqMinP := MinP (ConvSettings c);
             ReqFrequencyPenalty := FrequencyPenalty (ConvSettings c);
             ReqPresencePenalty := PresencePenalty (ConvSettings c);
             ReqRepetitionPenalty := RepetitionPenalty (ConvSettings c);
             ReqStream := false;
             ReqStreamOptions := None;
             ReqStop := StopSequences (ConvSettings c) |} in
        if negb (marshalOk req) then (failed ErrMarshal, c, w)
        else
          let '(resp, w) := doWithRetries retries req w in
          match resp with
          | DoError cause => (failed (ErrHTTP retries cause), c, w)
          | DoResponse status body =>
              match bodyErr body with
              | Some cause => (failed (ErrReadBody cause), c, w)
              | None =>
                  if negb (status =? StatusOK)%Z
                  then (failed (ErrAPIStatus status (bodyData body)), c, w)
                  else
                    match unmarshalResponse (bodyData body) with
                    | None =>
                        ({| reply := bodyData body;
                            stopReason := EmptyString;
                            inputTokens := 0; outputTokens := 0;
                            err := Some ErrParse |}, c, w)
                    | Some compResp =>
                        match Choices compResp with
                        | [] => (failed ErrNoChoices, c, w)
                        | choice :: _ =>
                            let reply := Text choice in
                            let c := AddMessage "assistant" reply c in
                            let stopReason :=
                              normalizeStopReason (FinishReason choice) in
                            let inputTokens :=
                              PromptTokens (RespUsage compResp) in
                            let outputTokens :=
                              CompletionTokens (RespUsage compResp) in
                            let c := addUsage inputTokens outputTokens c in
                            ({| reply := reply;
                                stopReason := stopReason;
                                inputTokens := inputTokens;
                                outputTokens := outputTokens;
                                err := None |}, c, w)
                        end
                    end
              end
          end
    end.

(** The state of the loop of [parseSSEStream]: the builder, the stop
    reason seen last, and the calls the callback has received. *)
Record SSEState := {
  accumulated : string;
  sseStopReason : string;
  callbackCalls : list (string * bool)
}.

(** How an iteration of the loop ends. *)
Inductive SSEStep :=
| Continue (st : SSEState)
| Break (st : SSEState).

(** One iteration: the body of [for scanner.Scan() { ... }] on [line].
    [callback] tells whether the callback is non-nil. *)
Definition sseLine (callback : bool) (line : string) (st : SSEState)
    : SSEStep :=
  if negb (HasPrefix line "data: ") then Continue st
  else
    let data := TrimPrefix line "data: " in
    if data =? "[DONE]" then
      Break
        {| accumulated := accumulated st;
           sseStopReason := sseStopReason st;
           callbackCalls :=
             if callback
             then (callbackCalls st ++ [(EmptyString, true)])%list
             else callbackCalls st |}
    else
      match unmarshalChunk data with
      | None => Continue st
      | Some chunk =>
          match ChunkChoices chunk with
          | [] => Continue st
          | choice :: _ =>
              let st :=
                if negb (ChunkText choice =? EmptyString) then
                  {| accumulated := accumulated st ++ ChunkText choice;
                     sseStopReason := sseStopReason st;
                     callbackCalls :=
                       if callback
                       then (callbackCalls st
                             ++ [(ChunkText choice, false)])%list
                       else callbackCalls st |}
                else st in
              match ChunkFinishReason choice with
              | Some r =>
                  if negb (r =? EmptyString) then
                    Continue
                      {| accumulated := accumulated st;
                         sseStopReason := r;
                         callbackCalls := callbackCalls st |}
                  else Continue st
              | None => Continue st
              end
          end
      end.

(** The loop: the lines in order, until one breaks out.  The result is
    the last state and what [scanner.Err()] returns after the loop. *)
Fixpoint sseLoop (callback : bool) (lines : list ScanLine)
    (atEnd : option string) (st : SSEState) : SSEState * option string :=
  match lines with
  | [] => (st, atEnd)
  | l :: rest =>
      match sseLine callback (lineText l) st with
      | Continue st' => sseLoop callback rest atEnd st'
      | Break st' => (st', pendingErr l)
      end
  end.

(** [parseSSEStream]: full text, stop reason, error, and the calls the
    callback received. *)
Definition parseSSEStream (body : Body) (callback : bool)
    : string * string * option SendError * list (string * bool) :=
  let '(st, scannerErr) :=
    sseLoop callback (scanLines body) (scanErr body)
      {| accumulated := EmptyString; sseStopReason := EmptyString;
         callbackCalls := [] |} in
  match scannerErr with
  | Some cause =>
      (accumulated st, sseStopReason st, Some (ErrReadStream cause),
       callbackCalls st)
  | None => (accumulated st, sseStopReason st, None, callbackCalls st)
  end.

(** [SendStreaming] of streaming.go.  The world it runs in is the
    transport and the log of the calls the callback received.  The client
    it builds differs from [c.HttpClient] in its timeout only, so the calls
    go to the same transport. *)
Definition SendStreaming (text : string) (callback : bool)
    (c : Conversation) (w : Transport * list (string * bool))
    : SendOut * Conversation * (Transport * list (string * bool)) :=
  let '(tr, log) := w in
  if ApiToken c =? EmptyString then (failed ErrNoToken, c, w)
  else
    match addUserTurn text c with
    | None => (failed ErrNoMessages, c, w)
    | Some c =>
        let prompt := buildPrompt c in
        let req :=
          {| ReqModel := Model (ConvSettings c);
             ReqPrompt := prompt;
             ReqMaxTokens := MaxTokens (ConvSettings c);
             ReqTemperature := Temperature (ConvSettings c);
             ReqTopP := TopP (ConvSettings c);
             ReqTopK := TopK (ConvSettings c);
             ReqMinP := MinP (ConvSettings c);
             ReqFrequencyPenalty := FrequencyPenalty (ConvSettings c);
             ReqPresencePenalty := PresencePenalty (ConvSettings c);
             ReqRepetitionPenalty := RepetitionPenalty (ConvSettings c);
             ReqStream := true;
             ReqStreamOptions := None;
             ReqStop := StopSequences (ConvSettings c) |} in
        if negb (marshalOk req) then (failed ErrMarshal, c, w)
        else
          let '(resp, tr) := doWithRetries retries req tr in
          match resp with
          | DoError cause => (failed (ErrHTTP retries cause), c, (tr, log))
          | DoResponse status body =>
              if negb (status =? StatusOK)%Z
              then (failed (ErrAPIStatus status (bodyData body)), c,
                    (tr, log))
              else
                let '(reply, stopReason, perr, cbs) :=
                  parseSSEStream body callback in
                let log := (log ++ cbs)%list in
                match perr with
                | Some e =>
                    ({| reply := reply; stopReason := stopReason;
                        inputTokens := 0; outputTokens := 0;
                        err := Some e |}, c, (tr, log))
                | None =>
                    let c := AddMessage "assistant" reply c in
                    let stopReason := normalizeStopReason stopReason in
                    let outputTokens := Z.quot (len reply) 4 in
                    let outputTokens :=
                      if (outputTokens =? 0)%Z && (len reply >? 0)%Z
                      then 1%Z else outputTokens in
                    let c :=
                      setUsage c
                        {| InputTokens := InputTokens (ConvUsage c);
                           OutputTokens :=
                             int_add (OutputTokens (ConvUsage c)) outputTokens |} in
                    ({| reply := reply; stopReason := stopReason;
                        inputTokens := 0; outputTokens := outputTokens;
                        err := None |}, c, (tr, log))
                end
          end
    end.

End WithJson.

(* ===================================================================== *)
(** ** Automatic continuation                                             *)
(* ===================================================================== *)

Section Continuation.
(** [SendUntilDone] and [SendStreamingUntilDone] are the same loop, the
    first around [c.Send], the second around [c.SendStreaming]; [send] is
    that call and [W] the world it runs in. *)
Variable W : Type.
Variable send : string -> Conversation -> W -> SendOut * Conversation * W.

(** The loop [for { ... }], entered with [input], the reply and the
    token counts accumulated so far.  It need not end (a server may
    truncate every answer), so it runs on [fuel]: one unit per
    iteration, [None] when none is left. *)
Fixpoint untilDoneFrom (fuel : nat) (input totalReply : string)
    (inTok outTok : Z) (c : Conversation) (w : W)
    : option (SendOut * Conversation * W) :=
  match fuel with
  | O => None
  | S fuel' =>
      let '(part, c, w) := send input c w in
      match err part with
      | Some e =>
          Some ({| reply := totalReply; stopReason := stopReason part;
                   inputTokens := inTok; outputTokens := outTok;
                   err := Some e |}, c, w)
      | None =>
          let totalReply := totalReply ++ reply part in
          let inTok := int_add inTok (inputTokens part) in
          let outTok := int_add outTok (outputTokens part) in
          let c := MergeIfLastTwoAssistant c in
          if negb (stopReason part =? "max_tokens") then
            Some ({| reply := totalReply; stopReason := stopReason part;
                     inputTokens := inTok; outputTokens := outTok;
                     err := None |}, c, w)
          else untilDoneFrom fuel' EmptyString totalReply inTok outTok c w
      end
  end.

Definition untilDone (fuel : nat) (text : string) (c : Conversation)
    (w : W) : option (SendOut * Conversation * W) :=
  untilDoneFrom fuel text EmptyString 0 0 c w.

(** A test double around [send]: the same call, with its input appended
    to a record of the inputs of all calls. *)
Definition spy (text : string) (c : Conversation) (w : W * list string)
    : SendOut * Conversation * (W * list string) :=
  let '(part, c', w') := send text c (fst w) in
  (part, c', (w', (snd w ++ [text])%list)).

(** [k] iterations of the loop that each end with the stop reason
    max_tokens: from [input], [c] and [w] the calls return the parts [ps],
    and the next iteration starts with [input'], [c'] and [w']. *)
Inductive truncatedRun
  : string -> Conversation -> W -> list SendOut
    -> string -> Conversation -> W -> Prop :=
| run_done (input : string) (c : Conversation) (w : W) :
    truncatedRun input c w [] input c w
| run_more (input : string) (c : Conversation) (w : W)
    (part : SendOut) (c1 : Conversation) (w1 : W) (ps : list SendOut)
    (input' : string) (c' : Conversation) (w' : W) :
    send input c w = (part, c1, w1) ->
    err part = None ->
    stopReason part = "max_tokens" ->
    truncatedRun EmptyString (MergeIfLastTwoAssistant c1) w1 ps input' c' w' ->
    truncatedRun input c w (part :: ps) input' c' w'.

End Continuation.

Definition SendUntilDone `{Json} (fuel : nat) (text : string)
    (sampling : Sampling) (c : Conversation) (w : Transport)
    : option (SendOut * Conversation * Transport) :=
  untilDone (fun input => Send input sampling) fuel text c w.

Definition SendStreamingUntilDone `{Json} (fuel : nat) (text : string)
    (callback : bool) (c : Conversation) (w : Transport * list (string * bool))
    : option (SendOut * Conversation * (Transport * list (string * bool))) :=
  untilDone (fun input => SendStreaming input callback) fuel text c w.

(* ===================================================================== *)
(** ** api.go: rich content and the token lookup                          *)
(* ===================================================================== *)

(** The type of a content block of [llmapi]: the two kinds the package
    has a case for, and any other kind by its name. *)
Inductive ContentType :=
| ContentTypeText
| ContentTypeThinking
| ContentTypeOther (name : string).

(** The fields of [llmapi.ContentBlock] that the package reads;
    [BlockThinking] is [block.Thinking.Thinking], [None] for a nil
    pointer. *)
Record ContentBlock := {
  BlockType : ContentType;
  BlockText : string;
  BlockThinking : option string
}.

Record RichMessage := {
  RichRole : string;
  RichContent : list ContentBlock
}.

Record RichResponse := {
  RespContent : list ContentBlock;
  RespStopReason : string;
  RespInputTokens : Z;
  RespOutputTokens : Z
}.

(** One turn of the loop of [extractTextFromBlocks] on the builder. *)
Definition writeBlock (text : string) (block : ContentBlock) : string :=
  match BlockType block with
  | ContentTypeText => text ++ BlockText block
  | ContentTypeThinking =>
      match BlockThinking block with
      | Some thinking =>
          let text := text ++ ("<thinking>" ++ lf) in
          let text := text ++ thinking in
          text ++ (lf ++ "</thinking>" ++ lf)
      | None => text
      end
  | ContentTypeOther _ => text
  end.

Definition extractTextFromBlocks (blocks : list ContentBlock) : string :=
  if (length blocks =? 0)%nat then EmptyString
  else fold_left writeBlock blocks EmptyString.

(** [AddRichMessage]. *)
Definition AddRichMessage (role : string) (content : list ContentBlock)
    (c : Conversation) : Conversation :=
  let text := extractTextFromBlocks content in
  setMessages c (Messages c ++ [{| Role := role; Content := text |}]).

Section RichContent.
(** [llmapi.NewTextBlock], a function of the other module. *)
Variable NewTextBlock : string -> ContentBlock.

(** [GetRichMessages]. *)
Definition GetRichMessages (c : Conversation) : list RichMessage :=
  map (fun msg =>
         {| RichRole := Role msg;
            RichContent := [NewTextBlock (Content msg)] |})
    (Messages c).

Context `{Json}.

(** [SendRich]: the response, [None] for Go's nil, and the error. *)
Definition SendRich (content : list ContentBlock) (sampling : Sampling)
    (c : Conversation) (w : Transport)
    : (option RichResponse * option SendError) * Conversation * Transport :=
  let text := extractTextFromBlocks content in
  let '(out, c, w) := Send text sampling c w in
  match err out with
  | Some e => ((None, Some e), c, w)
  | None =>
      ((Some {| RespContent := [NewTextBlock (reply out)];
                RespStopReason := stopReason out;
                RespInputTokens := inputTokens out;
                RespOutputTokens := outputTokens out |}, None), c, w)
  end.

End RichContent.

(** What [init] reads: the environment variables, the home directory
    ([None] when [os.UserHomeDir] fails) and the files ([None] when
    [os.ReadFile] fails). *)
Record Environment := {
  getenv : string -> string;
  userHomeDir : option string;
  readFile : string -> option string
}.

(** [readTokenFile]. *)
Definition readTokenFile (env : Environment) (path : string) : string :=
  match readFile env path with
  | None => EmptyString
  | Some data => TrimSpace data
  end.

(** [init], as the value it leaves in [DefaultApiToken], which holds
    [token0] before. *)
Definition init (env : Environment) (token0 : string) : string :=
  let fromWorkingDir :=
    let token := readTokenFile env ".naitoken" in
    if negb (token =? EmptyString) then token else token0 in
  let token := getenv env "NAI_API_KEY" in
  if negb (token =? EmptyString) then token
  else
    match userHomeDir env with
    | Some home =>
        let token := readTokenFile env (home ++ "/.naitoken") in
        if negb (token =? EmptyString) then token else fromWorkingDir
    | None => fromWorkingDir
    end.

(* ===================================================================== *)
(** ** Cancellation                                                       *)
(* ===================================================================== *)

(** The sources hold the tests of cancellation (TestContextCancellation
    and its siblings, which attach a context with [conv.SetContext] before
    they call [Send]) but neither [SetContext] nor any code that looks at
    the signal: [Conversation] has no field for one, and the [Send] above
    builds its request with [http.NewRequest].  The signal and what [Send]
    does with it are modelled from the specification, section 5, in the
    module below; everything else a call does is the [Send] of the
    sources. *)
Module SpecModel.

(** Modelled from the spec: the caller-supplied cancellation signal of
    section 5, which is missing from the sources, as it stands when the
    call is made: live, or already cancelled. *)
Inductive Signal :=
| Live
| Cancelled.

(** The errors of a call that carries a signal: the CancellationError of
    section 4.5, or an error of the [Send] of the sources. *)
Inductive CoreError :=
| CancellationError
| SendFailed (e : SendError).

Record Outcome := {
  outReply : string;
  outStopReason : string;
  outInputTokens : Z;
  outOutputTokens : Z;
  outErr : option CoreError
}.

Definition failure (e : CoreError) : Outcome :=
  {| outReply := EmptyString; outStopReason := EmptyString;
     outInputTokens := 0; outOutputTokens := 0; outErr := Some e |}.

Definition outcome (out : SendOut) : Outcome :=
  {| outReply := reply out; outStopReason := stopReason out;
     outInputTokens := inputTokens out; outOutputTokens := outputTokens out;
     outErr := option_map SendFailed (err out) |}.

(** Modelled from the spec: [Send] with the signal attached, which is
    missing from the sources.  By section 5 an already-cancelled signal
    must cause an immediate CancellationError without issuing any network
    I/O: the call returns before it looks at anything else, and leaves the
    conversation and the transport as they are.  With a live signal the
    call is the [Send] of the sources. *)
Definition Send `{Json} (signal : Signal) (text : string)
    (sampling : Sampling) (c : Conversation) (w : Transport)
    : Outcome * Conversation * Transport :=
  match signal with
  | Cancelled => (failure CancellationError, c, w)
  | Live =>
      let '(out, c, w) := Send text sampling c w in
      (outcome out, c, w)
  end.

End SpecModel.

(* ===================================================================== *)
(** ** A JSON decoder to run the examples with                            *)
(* ===================================================================== *)

(** The properties below hold for every decoder (they are stated over the
    class [Json]).  To run the code on the payloads of the examples, this
    module reads the JSON they are written in: objects, arrays, strings
    with the two-character escapes, integers, [true], [false] and [null],
    decoded into the two response types field by field, with a missing or
    [null] field left at its zero value and a value of the wrong kind an
    error.

    It reads a part of what [json.Unmarshal] reads, and stands for it on
    that part only: a key is matched as it is spelled (Go also takes a key
    that differs in case), and a string with a \u escape or a number with
    a fraction or an exponent is refused, also where Go would skip it in a
    field the types do not have.  The payloads of the examples stay within
    the part both read alike, and no property is stated about this
    decoder. *)
Module MiniJson.

#[warnings="-register-all"]
Inductive value :=
| JNull
| JBool (b : bool)
| JInt (z : Z)
| JStr (s : string)
| JArr (elems : list value)
| JObj (members : list (string * value)).

Definition quoteChar : ascii := ascii_of_nat 34.
Definition backslash : ascii := ascii_of_nat 92.

Definition isWs (c : ascii) : bool :=
  byteIn (" " ++ tab ++ lf ++ cr) c.

Fixpoint skipWs (s : string) : string :=
  match s with
  | String c r => if isWs c then skipWs r else s
  | EmptyString => s
  end.

Definition digit (c : ascii) : option Z :=
  let n := nat_of_ascii c in
  if ((48 <=? n) && (n <=? 57))%nat then Some (Z.of_nat n - 48)%Z else None.

(** The digits at the front of [s], read onto [acc]. *)
Fixpoint readDigits (s : string) (acc : Z) (seen : bool)
    : option (Z * string) :=
  match s with
  | String c r =>
      match digit c with
      | Some d => readDigits r (acc * 10 + d)%Z true
      | None => if seen then Some (acc, s) else None
      end
  | EmptyString => if seen then Some (acc, s) else None
  end.

(** The rest of a string literal, after its opening quote. *)
Fixpoint readString (s : string) : option (string * string) :=
  match s with
  | EmptyString => None
  | String c r =>
      if Ascii.eqb c quoteChar then Some (EmptyString, r)
      else if Ascii.eqb c backslash then
        match r with
        | String e r' =>
            let unescaped :=
              if Ascii.eqb e quoteChar then Some quoteChar
              else if Ascii.eqb e backslash then Some backslash
              else if Ascii.eqb e "/" then Some "/"%char
              else if Ascii.eqb e "n" then Some (ascii_of_nat 10)
              else if Ascii.eqb e "r" then Some (ascii_of_nat 13)
              else if Ascii.eqb e "t" then Some (ascii_of_nat 9)
              else if Ascii.eqb e "b" then Some (ascii_of_nat 8)
              else if Ascii.eqb e "f" then Some (ascii_of_nat 12)
              else None in
            match unescaped, readString r' with
            | Some u, Some (str, rest) => Some (String u str, rest)
            | _, _ => None
            end
        | EmptyString => None
        end
      else if (nat_of_ascii c <? 32)%nat then None
      else
        match readString r with
        | Some (str, rest) => Some (String c str, rest)
        | None => None
        end
  end.

(** The elements of an array after the first, up to the closing bracket. *)
Fixpoint readElems (readValue : string -> option (value * string))
    (fuel : nat) (s : string) : option (list value * string) :=
  match fuel with
  | O => None
  | S fuel' =>
      match skipWs s with
      | String "]" r => Some ([], r)
      | String "," r =>
          match readValue r with
          | Some (v, rest) =>
              match readElems readValue fuel' rest with
              | Some (vs, rest') => Some (v :: vs, rest')
              | None => None
              end
          | None => None
          end
      | _ => None
      end
  end.

(** One member of an object: a key, a colon, a value. *)
Definition readMember (readValue : string -> option (value * string))
    (s : string) : option ((string * value) * string) :=
  match skipWs s with
  | String c r =>
      if Ascii.eqb c quoteChar then
        match readString r with
        | Some (key, rest) =>
            match skipWs rest with
            | String ":" rest' =>
                match readValue rest' with
                | Some (v, rest'') => Some ((key, v), rest'')
                | None => None
                end
            | _ => None
            end
        | None => None
        end
      else None
  | EmptyString => None
  end.

(** The members of an object after the first, up to the closing brace. *)
Fixpoint readMembers (readValue : string -> option (value * string))
    (fuel : nat) (s : string) : option (list (string * value) * string) :=
  match fuel with
  | O => None
  | S fuel' =>
      match skipWs s with
      | String "}" r => Some ([], r)
      | String "," r =>
          match readMember readValue r with
          | Some (m, rest) =>
              match readMembers readValue fuel' rest with
              | Some (ms, rest') => Some (m :: ms, rest')
              | None => None
              end
          | None => None
          end
      | _ => None
      end
  end.

(** A value at the front of [s]; [fuel] bounds the nesting and the number
    of elements, and the length of the text is always enough. *)
Fixpoint readValue (fuel : nat) (s : string) : option (value * string) :=
  match fuel with
  | O => None
  | S fuel' =>
      match skipWs s with
      | EmptyString => None
      | String c r as s' =>
          if Ascii.eqb c quoteChar then
            match readString r with
            | Some (str, rest) => Some (JStr str, rest)
            | None => None
            end
          else if Ascii.eqb c "[" then
            match skipWs r with
            | String "]" rest => Some (JArr [], rest)
            | _ =>
                match readValue fuel' r with
                | Some (v, rest) =>
                    match readElems (readValue fuel') fuel' rest with
                    | Some (vs, rest') => Some (JArr (v :: vs), rest')
                    | None => None
                    end
                | None => None
                end
            end
          else if Ascii.eqb c "{" then
            match skipWs r with
            | String "}" rest => Some (JObj [], rest)
            | _ =>
                match readMember (readValue fuel') r with
                | Some (m, rest) =>
                    match readMembers (readValue fuel') fuel' rest with
                    | Some (ms, rest') => Some (JObj (m :: ms), rest')
                    | None => None
                    end
                | None => None
                end
            end
          else if Ascii.eqb c "-" then
            match readDigits r 0 false with
            | Some (z, rest) => Some (JInt (- z), rest)
            | None => None
            end
          else
            match CutPrefix s' "true", CutPrefix s' "false",
                  CutPrefix s' "null" with
            | Some rest, _, _ => Some (JBool true, rest)
            | _, Some rest, _ => Some (JBool false, rest)
            | _, _, Some rest => Some (JNull, rest)
            | _, _, _ =>
                match readDigits s' 0 false with
                | Some (z, rest) => Some (JInt z, rest)
                | None => None
                end
            end
      end
  end.

(** A whole text: one value and nothing but white space after it. *)
Definition parse (s : string) : option value :=
  match readValue (S (String.length s)) s with
  | Some (v, rest) =>
      match skipWs rest with
      | EmptyString => Some v
      | _ => None
      end
  | None => None
  end.

(** The value of the member [key], the last one when it is repeated. *)
Fixpoint member (key : string) (ms : list (string * value)) : option value :=
  match ms with
  | [] => None
  | (k, v) :: rest =>
      match member key rest with
      | Some v' => Some v'
      | None => if k =? key then Some v else None
      end
  end.

Definition asString (v : option value) : option string :=
  match v with
  | None | Some JNull => Some EmptyString
  | Some (JStr s) => Some s
  | Some _ => None
  end.

Definition asStringPtr (v : option value) : option (option string) :=
  match v with
  | None | Some JNull => Some None
  | Some (JStr s) => Some (Some s)
  | Some _ => None
  end.

Definition asInt (v : option value) : option Z :=
  match v with
  | None | Some JNull => Some 0%Z
  | Some (JInt z) =>
      if ((- 2 ^ 63 <=? z) && (z <? 2 ^ 63))%Z then Some z else None
  | Some _ => None
  end.

(** Every element decoded, or none when one fails. *)
Fixpoint allOf (A : Type) (l : list (option A)) : option (list A) :=
  match l with
  | [] => Some []
  | Some x :: rest =>
      match allOf rest with Some xs => Some (x :: xs) | None => None end
  | None :: _ => None
  end.

Definition asUsage (v : value) : option ResponseUsage :=
  match v with
  | JObj ms =>
      match asInt (member "prompt_tokens" ms),
            asInt (member "completion_tokens" ms),
            asInt (member "total_tokens" ms) with
      | Some p, Some c, Some t =>
          Some {| PromptTokens := p; CompletionTokens := c;
                  TotalTokens := t |}
      | _, _, _ => None
      end
  | JNull =>
      Some {| PromptTokens := 0; CompletionTokens := 0; TotalTokens := 0 |}
  | _ => None
  end.

Definition asChunkChoice (v : value) : option ChunkChoice :=
  match v with
  | JObj ms =>
      match asInt (member "index" ms), asString (member "text" ms),
            asStringPtr (member "finish_reason" ms) with
      | Some i, Some t, Some f =>
          Some {| ChunkIndex := i; ChunkText := t; ChunkFinishReason := f |}
      | _, _, _ => None
      end
  | JNull =>
      Some {| ChunkIndex := 0; ChunkText := EmptyString;
              ChunkFinishReason := None |}
  | _ => None
  end.

Definition asResponseChoice (v : value) : option ResponseChoice :=
  match v with
  | JObj ms =>
      match asInt (member "index" ms), asString (member "text" ms),
            asString (member "finish_reason" ms) with
      | Some i, Some t, Some f =>
          Some {| Index := i; Text := t; FinishReason := f |}
      | _, _, _ => None
      end
  | JNull =>
      Some {| Index := 0; Text := EmptyString; FinishReason := EmptyString |}
  | _ => None
  end.

Definition asList (A : Type) (elem : value -> option A) (v : option value)
    : option (list A) :=
  match v with
  | None | Some JNull => Some []
  | Some (JArr vs) => allOf (map elem vs)
  | Some _ => None
  end.

Definition decodeChunk (v : value) : option streamChunk :=
  match v with
  | JObj ms =>
      match asString (member "id" ms), asString (member "object" ms),
            asInt (member "created" ms), asString (member "model" ms),
            asList asChunkChoice (member "choices" ms) with
      | Some i, Some o, Some cr, Some m, Some chs =>
          match member "usage" ms with
          | None | Some JNull =>
              Some {| ChunkID := i; ChunkObject := o; ChunkCreated := cr;
                      ChunkModel := m; ChunkChoices := chs;
                      ChunkUsage := None |}
          | Some u =>
              match asUsage u with
              | Some us =>
                  Some {| ChunkID := i; ChunkObject := o;
                          ChunkCreated := cr; ChunkModel := m;
                          ChunkChoices := chs; ChunkUsage := Some us |}
              | None => None
              end
          end
      | _, _, _, _, _ => None
      end
  | JNull =>
      Some {| ChunkID := EmptyString; ChunkObject := EmptyString;
              ChunkCreated := 0; ChunkModel := EmptyString;
              ChunkChoices := []; ChunkUsage := None |}
  | _ => None
  end.

Definition decodeResponse (v : value) : option completionResponse :=
  match v with
  | JObj ms =>
      match asString (member "id" ms), asString (member "object" ms),
            asInt (member "created" ms), asString (member "model" ms),
            asList asResponseChoice (member "choices" ms),
            (match member "usage" ms with
             | None => asUsage JNull
             | Some u => asUsage u
             end) with
      | Some i, Some o, Some cr, Some m, Some chs, Some us =>
          Some {| RespID := i; RespObject := o; RespCreated := cr;
                  RespModel := m; Choices := chs; RespUsage := us |}
      | _, _, _, _, _, _ => None
      end
  | JNull =>
      Some {| RespID := EmptyString; RespObject := EmptyString;
              RespCreated := 0; RespModel := EmptyString; Choices := [];
              RespUsage := {| PromptTokens := 0; CompletionTokens := 0;
                              TotalTokens := 0 |} |}
  | _ => None
  end.

Definition bind (A B : Type) (o : option A) (f : A -> option B) : option B :=
  match o with Some x => f x | None => None end.

#[export] Instance decoder : Json :=
  {| unmarshalResponse := fun s => bind (parse s) decodeResponse;
     unmarshalChunk := fun s => bind (parse s) decodeChunk |}.

(** A JSON string literal and a member, to write payloads with. *)
Definition str (s : string) : string :=
  String quoteChar s ++ String quoteChar EmptyString.

Definition field (key value : string) : string := str key ++ ":" ++ value.

End MiniJson.

(* ===================================================================== *)
(** ** The vocabulary of the properties                                   *)
(* ===================================================================== *)

Local Open Scope list_scope.

Definition assistantTurn (m : Message) : Prop := Role m = "assistant".

(** The history ends with two, respectively three, assistant turns. *)
Definition endsWithTwoAssistants (ms : list Message) : Prop :=
  exists pre a b, ms = pre ++ [a; b] /\ assistantTurn a /\ assistantTurn b.

Definition endsWithThreeAssistants (ms : list Message) : Prop :=
  exists pre a b d,
    ms = pre ++ [a; b; d]
    /\ assistantTurn a /\ assistantTurn b /\ assistantTurn d.

(** The turn that replaces the pair [a], [b]. *)
Definition mergedTurn (a b : Message) : Message :=
  {| Role := Role a;
     Content :=
       (TrimRight (Content a) mergeCutset ++ TrimSpace (Content b))%string |}.

(** White space, as the two trims of the merge see it.

    The earlier turn loses the bytes of the cutset at its end: space, tab,
    line feed and carriage return, and no other. *)
Definition blankByte (ch : ascii) : Prop :=
  ch = ascii_of_nat 32 \/ ch = ascii_of_nat 9
  \/ ch = ascii_of_nat 10 \/ ch = ascii_of_nat 13.

Definition allBlank (s : string) : Prop :=
  Forall blankByte (list_ascii_of_string s).

Definition lastByte (s : string) (ch : ascii) : Prop :=
  exists t, s = (t ++ String ch EmptyString)%string.

(** [t] is [s] without the blanks at its end: what was cut is blank and
    what is left ends with no blank. *)
Definition withoutTrailingBlanks (s t : string) : Prop :=
  (exists ws, s = (t ++ ws)%string /\ allBlank ws)
  /\ (forall ch, lastByte t ch -> ~ blankByte ch).

(** The code points with the Unicode property White_Space, the ones
    [unicode.IsSpace] accepts. *)
Definition whiteSpaceRunes : list N :=
  [0x09; 0x0A; 0x0B; 0x0C; 0x0D; 0x20; 0x85; 0xA0; 0x1680;
   0x2000; 0x2001; 0x2002; 0x2003; 0x2004; 0x2005; 0x2006; 0x2007;
   0x2008; 0x2009; 0x200A; 0x2028; 0x2029; 0x202F; 0x205F; 0x3000]%N.

(** The UTF-8 encoding of a code point below U+10000. *)
Definition utf8 (r : N) : string :=
  bytes (map N.to_nat
    (if r <? 0x80 then [r]
     else if r <? 0x800 then [0xC0 + r / 64; 0x80 + r mod 64]
     else [0xE0 + r / 4096; 0x80 + (r / 64) mod 64; 0x80 + r mod 64])%N).

(** [w] is one white space character, encoded. *)
Definition whiteSpace (w : string) : Prop :=
  exists r, In r whiteSpaceRunes /\ w = utf8 r.

(** A string made of white space characters only. *)
Inductive allWhite : string -> Prop :=
| allWhite_nil : allWhite EmptyString
| allWhite_cons (w s : string) :
    whiteSpace w -> allWhite s -> allWhite (w ++ s)%string.

(** [t] is [s] without the white space at its end. *)
Definition withoutTrailingWhiteSpace (s t : string) : Prop :=
  (exists r, s = (t ++ r)%string /\ allWhite r)
  /\ (forall w rest, whiteSpace w -> t <> (rest ++ w)%string).

(** [t] is [s] without the white space around it: what was cut on either
    side is white space, and what is left neither starts nor ends with a
    white space character. *)
Definition withoutSurroundingWhiteSpace (s t : string) : Prop :=
  (exists l r, s = (l ++ t ++ r)%string /\ allWhite l /\ allWhite r)
  /\ (forall w rest, whiteSpace w -> t <> (w ++ rest)%string)
  /\ (forall w rest, whiteSpace w -> t <> (rest ++ w)%string).

(** A continuation byte of UTF-8, 10xxxxxx. *)
Definition continuation (b : ascii) : bool :=
  ((128 <=? nat_of_ascii b) && (nat_of_ascii b <? 192))%nat.

(** The roles [buildPrompt] has a case for. *)
Definition knownRole (role : string) : bool :=
  (role =? "user") || (role =? "assistant") || (role =? "system").

(** The delimiter of a known role. *)
Definition roleToken (role : string) : string :=
  if role =? "user" then glmUser
  else if role =? "assistant" then glmAssistant
  else glmSystem.

(** The messages with their indices in the history, from [i] on. *)
Fixpoint indexedFrom (i : Z) (ms : list Message) : list (Z * Message) :=
  match ms with
  | [] => []
  | m :: rest => (i, m) :: indexedFrom (i + 1) rest
  end.

(** The block of a message of a known role at index [i] of [n]: the
    delimiter, the content, the suffix on a closing user turn when thinking
    is off, each part on its line. *)
Definition block (thinking : bool) (n : Z) (im : Z * Message) : string :=
  let '(i, m) := im in
  (roleToken (Role m) ++ lf ++ Content m
   ++ (if (Role m =? "user") && (i =? n - 1)%Z && negb thinking
       then glmNoThink else EmptyString)
   ++ lf)%string.

Definition joinAll (l : list string) : string :=
  fold_right String.append EmptyString l.

Definition promptHead (c : Conversation) : string :=
  (glmPrefix
   ++ (if System c =? EmptyString then EmptyString
       else glmSystem ++ lf ++ System c ++ lf))%string.

Definition promptTail (c : Conversation) : string :=
  (glmAssistant ++ lf
   ++ (if Thinking (ConvSettings c) then EmptyString
       else "<think></think>" ++ lf))%string.

(** The replies of the parts joined, and their token counts summed as the
    loop sums them. *)
Definition joinReplies (ps : list SendOut) : string :=
  joinAll (map reply ps).

Definition sumTokens (count : SendOut -> Z) (start : Z) (ps : list SendOut)
    : Z :=
  fold_left int_add (map count ps) start.

Definition userTurn (text : string) : Message :=
  {| Role := "user"; Content := text |}.

Definition assistantReply (text : string) : Message :=
  {| Role := "assistant"; Content := text |}.

(** The user turn a failed call leaves in the history: none when the
    credential is missing or the text is empty. *)
Definition keptUserTurn (c : Conversation) (text : string) : list Message :=
  if (ApiToken c =? EmptyString) || (text =? EmptyString)
  then [] else [userTurn text].

(** The chunk with one choice that carries [text] and [finish]. *)
Definition textChunk (text : string) (finish : option string) : streamChunk :=
  {| ChunkID := EmptyString; ChunkObject := EmptyString; ChunkCreated := 0;
     ChunkModel := EmptyString;
     ChunkChoices :=
       [ {| ChunkIndex := 0; ChunkText := text;
            ChunkFinishReason := finish |} ];
     ChunkUsage := None |}.

Definition startState : SSEState :=
  {| accumulated := EmptyString; sseStopReason := EmptyString;
     callbackCalls := [] |}.

Definition withLines (body : Body) (lines : list ScanLine) : Body :=
  {| bodyData := bodyData body; bodyErr := bodyErr body;
     scanLines := lines; scanErr := scanErr body |}.

(** The estimate of streaming.go: a quarter of the length of the reply in
    bytes, rounded down, and at least one token for a reply that is not
    empty. *)
Definition estimatedTokens (r : string) : Z :=
  if (len r =? 0)%Z then 0%Z else Z.max 1 (len r / 4).

(** The request [Send] builds for the conversation [c], the user turn
    already appended. *)
Definition sendRequest (sampling : Sampling) (c : Conversation)
    : completionRequest :=
  {| ReqModel := Model (ConvSettings c);
     ReqPrompt := buildPrompt c;
     ReqMaxTokens := MaxTokens (ConvSettings c);
     ReqTemperature :=
       if negb (SamplingTemperature sampling =? 0)%float
       then SamplingTemperature sampling
       else Temperature (ConvSettings c);
     ReqTopP :=
       if negb (SamplingTopP sampling =? 0)%float
       then SamplingTopP sampling
       else TopP (ConvSettings c);
     ReqTopK :=
       if negb (SamplingTopK sampling =? 0)%Z
       then SamplingTopK sampling
       else TopK (ConvSettings c);
     ReqMinP := MinP (ConvSettings c);
     ReqFrequencyPenalty := FrequencyPenalty (ConvSettings c);
     ReqPresencePenalty := PresencePenalty (ConvSettings c);
     ReqRepetitionPenalty := RepetitionPenalty (ConvSettings c);
     ReqStream := false;
     ReqStreamOptions := None;
     ReqStop := StopSequences (ConvSettings c) |}.

(** A call that gets as far as the network: a credential, something to
    send, sampling parameters that can be encoded. *)
Definition reachesNetwork (text : string) (sampling : Sampling)
    (c c1 : Conversation) : Prop :=
  ApiToken c <> EmptyString
  /\ addUserTurn text c = Some c1
  /\ marshalOk (sendRequest sampling c1) = true.

(** The errors [Send] returns without a request. *)
Definition configurationError (e : option SendError) : Prop :=
  e = Some ErrNoToken \/ e = Some ErrNoMessages \/ e = Some ErrMarshal.

(** The content the merges of the continuation loop leave for the parts
    of a reply. *)
Definition mergeContent (earlier later : string) : string :=
  (TrimRight earlier mergeCutset ++ TrimSpace later)%string.

(** The blocks [extractTextFromBlocks] writes something for. *)
Definition writtenBlock (block : ContentBlock) : bool :=
  match BlockType block, BlockThinking block with
  | ContentTypeText, _ => true
  | ContentTypeThinking, Some _ => true
  | _, _ => false
  end.

(** The body [body] with [e] as the error its scanner stops with. *)
Definition endingWith (body : Body) (e : option string) : Body :=
  {| bodyData := bodyData body; bodyErr := bodyErr body;
     scanLines := scanLines body; scanErr := e |}.

(** The calls a callback receives for the increments [texts]. *)
Definition incrementCalls (texts : list string) : list (string * bool) :=
  map (fun text => (text, false)) texts.

(** The line that ends a stream. *)
Definition isDoneLine (l : ScanLine) : Prop := lineText l = "data: [DONE]".

(** What the loop keeps true of its state when there is a callback: the
    calls so far are the increments, none of them empty, and joined they
    are the text accumulated. *)
Definition callbackInvariant (st : SSEState) : Prop :=
  exists texts : list string,
    callbackCalls st = incrementCalls texts
    /\ Forall (fun text => text <> EmptyString) texts
    /\ joinAll texts = accumulated st.

Section StreamVocabulary.
Context `{Json}.

(** The lines the loop passes over: no data prefix, a payload that does
    not decode, or a chunk without choices. *)
Definition skipped (line : string) : Prop :=
  HasPrefix line "data: " = false
  \/ (HasPrefix line "data: " = true
      /\ TrimPrefix line "data: " <> "[DONE]"
      /\ (unmarshalChunk (TrimPrefix line "data: ") = None
          \/ exists chunk,
               unmarshalChunk (TrimPrefix line "data: ") = Some chunk
               /\ ChunkChoices chunk = [])).

(** A data line whose first choice carries the finish reason [r]. *)
Definition finishes (line r : string) : Prop :=
  HasPrefix line "data: " = true
  /\ TrimPrefix line "data: " <> "[DONE]"
  /\ exists chunk choice rest,
       unmarshalChunk (TrimPrefix line "data: ") = Some chunk
       /\ ChunkChoices chunk = choice :: rest
       /\ ChunkFinishReason choice = Some r.

End StreamVocabulary.

Section SendVocabulary.
Context `{Json}.

(** What [Send] does with the outcome of the retry loop, for the
    conversation [c] with the user turn appended. *)
Definition afterRetries (c : Conversation) (r : HttpResult * Transport)
    : SendOut * Conversation * Transport :=
  let '(resp, w) := r in
  match resp with
  | DoError cause => (failed (ErrHTTP retries cause), c, w)
  | DoResponse status body =>
      match bodyErr body with
      | Some cause => (failed (ErrReadBody cause), c, w)
      | None =>
          if negb (status =? StatusOK)%Z
          then (failed (ErrAPIStatus status (bodyData body)), c, w)
          else
            match unmarshalResponse (bodyData body) with
            | None =>
                ({| reply := bodyData body; stopReason := EmptyString;
                    inputTokens := 0; outputTokens := 0;
                    err := Some ErrParse |}, c, w)
            | Some compResp =>
                match Choices compResp with
                | [] => (failed ErrNoChoices, c, w)
                | choice :: _ =>
                    ({| reply := Text choice;
                        stopReason :=
                          normalizeStopReason (FinishReason choice);
                        inputTokens := PromptTokens (RespUsage compResp);
                        outputTokens :=
                          CompletionTokens (RespUsage compResp);
                        err := None |},
                     addUsage (PromptTokens (RespUsage compResp))
                       (CompletionTokens (RespUsage compResp))
                       (AddMessage "assistant" (Text choice) c),
                     w)
                end
            end
      end
  end.

End SendVocabulary.

(* ===================================================================== *)
(** ** Conversations, servers and payloads of the examples                *)
(* ===================================================================== *)

(** The conversation of the package's merge test: a user turn and an
    answer in two parts. *)
Definition mergeTestConversation : Conversation :=
  AddMessage "assistant" "second part"
    (AddMessage "assistant" "First part"
       (AddMessage "user" "Hello" (NewConversation "test" "System"))).

(** The same answer in two parts, with white space where the parts
    meet. *)
Definition paddedConversation : Conversation :=
  AddMessage "assistant" (lf ++ " second part" ++ cr ++ lf)%string
    (AddMessage "assistant" ("First part " ++ tab ++ lf)%string
       (AddMessage "user" "Hello" (NewConversation "test" "System"))).

(** The vertical tab, U+000B. *)
Definition vtab : string := bytes [11%nat].

(** Two assistant turns that meet at vertical tabs. *)
Definition verticalTabTurns : Conversation :=
  AddMessage "assistant" (vtab ++ "b")%string
    (AddMessage "assistant" ("a" ++ vtab)%string
       (NewConversation "test" "System")).

(** A text block around a text, and a block of a kind the package has no
    case for. *)
Definition textBlock (text : string) : ContentBlock :=
  {| BlockType := ContentTypeText; BlockText := text;
     BlockThinking := None |}.

Definition imageBlock : ContentBlock :=
  {| BlockType := ContentTypeOther "image"; BlockText := EmptyString;
     BlockThinking := None |}.

(** A machine without NAI_API_KEY whose only token file holds a space and
    a line feed. *)
Definition blankTokenFile : Environment :=
  {| getenv := fun _ => EmptyString;
     userHomeDir := Some "/home/nai";
     readFile := fun path =>
       if (path =? "/home/nai/.naitoken")%string
       then Some (" " ++ lf)%string else None |}.

(** A history of three assistant turns. *)
Definition threeAssistantTurns : Conversation :=
  AddMessage "assistant" "c"
    (AddMessage "assistant" " b"
       (AddMessage "assistant" "a " (NewConversation "test" "System"))).

(** The conversation of C2 with the default settings (thinking off), and
    the same with thinking switched on. *)
Definition helloConversation : Conversation :=
  AddMessage "user" "Hello" (NewConversation "token" "sys").

Definition withThinking (c : Conversation) : Conversation :=
  {| System := System c; Messages := Messages c; ConvUsage := ConvUsage c;
     ApiToken := ApiToken c;
     ConvSettings :=
       {| Model := Model (ConvSettings c);
          MaxTokens := MaxTokens (ConvSettings c);
          Temperature := Temperature (ConvSettings c);
          TopP := TopP (ConvSettings c);
          TopK := TopK (ConvSettings c);
          MinP := MinP (ConvSettings c);
          FrequencyPenalty := FrequencyPenalty (ConvSettings c);
          PresencePenalty := PresencePenalty (ConvSettings c);
          RepetitionPenalty := RepetitionPenalty (ConvSettings c);
          StopSequences := StopSequences (ConvSettings c);
          Thinking := true;
          SettingsThinkFormat := SettingsThinkFormat (ConvSettings c) |} |}.

Definition noSampling : Sampling :=
  {| SamplingTemperature := 0%float; SamplingTopP := 0%float;
     SamplingTopK := 0 |}.

(** A body that is read without error and holds [data]. *)
Definition jsonBody (data : string) : Body :=
  {| bodyData := data; bodyErr := None; scanLines := []; scanErr := None |}.

(** The JSON of a completion with one choice, as the mock server of the
    package's tests writes it. *)
Definition completionJSON (text finishReason promptTokens completionTokens
    : string) : string :=
  ("{"
   ++ MiniJson.field "choices"
        ("[{" ++ MiniJson.field "text" (MiniJson.str text) ++ ","
         ++ MiniJson.field "finish_reason" (MiniJson.str finishReason)
         ++ "}]")
   ++ ","
   ++ MiniJson.field "usage"
        ("{" ++ MiniJson.field "prompt_tokens" promptTokens ++ ","
         ++ MiniJson.field "completion_tokens" completionTokens ++ "}")
   ++ "}")%string.

Definition serving (outcomes : list HttpResult) : Transport :=
  {| outcomes := outcomes; requests := [] |}.

(** A server that truncates its answer twice and then finishes it. *)
Definition storyTransport : Transport :=
  serving
    [ DoResponse 200 (jsonBody (completionJSON "Once upon" "length" "10" "2"));
      DoResponse 200 (jsonBody (completionJSON " a time" "length" "12" "2"));
      DoResponse 200 (jsonBody (completionJSON "." "stop" "14" "1")) ].

(** A server that truncates its answer once and then fails. *)
Definition failingTransport : Transport :=
  serving
    [ DoResponse 200 (jsonBody (completionJSON "Once upon" "length" "10" "2"));
      DoResponse 500 (jsonBody "overloaded") ].

Definition storyConversation : Conversation :=
  NewConversation "test-token" "You are helpful.".

Definition mockSend (input : string) (c : Conversation) (w : Transport)
    : SendOut * Conversation * Transport :=
  Send (H := MiniJson.decoder) input noSampling c w.

(** A call that never fails and always reports a truncated answer. *)
Definition alwaysTruncated (input : string) (c : Conversation) (w : nat)
    : SendOut * Conversation * nat :=
  ({| reply := "more"; stopReason := "max_tokens"; inputTokens := 1;
      outputTokens := 1; err := None |}, c, S w).

(** A conversation that closes with a truncated assistant turn. *)
Definition truncatedConversation : Conversation :=
  AddMessage "assistant" "Once upon"
    (AddMessage "user" "Tell me a story." storyConversation).

(** A server that finishes the truncated answer in one more part. *)
Definition finishingTransport : Transport :=
  serving
    [DoResponse 200 (jsonBody (completionJSON " a time." "stop" "12" "3"))].

(** A conversation without a credential. *)
Definition noTokenConversation : Conversation :=
  NewConversation EmptyString "System".

(** A server that answers once, with status 500. *)
Definition overloadedTransport : Transport :=
  serving [DoResponse 500 (jsonBody "overloaded")].

(** A server that answers once, as the mock server of [TestSend]. *)
Definition helpfulTransport : Transport :=
  serving
    [DoResponse 200
       (jsonBody (completionJSON " Hello! How can I help you?" "stop"
                    "10" "8"))].

(** A streamed body: the given lines, delivered with no error on record,
    and the end of the body after them. *)
Definition sseBody (lines : list string) : Body :=
  {| bodyData := EmptyString; bodyErr := None;
     scanLines := map (fun l => {| lineText := l; pendingErr := None |}) lines;
     scanErr := None |}.

(** The two payloads of C5. *)
Definition helPayload : string :=
  ("{" ++ MiniJson.field "choices"
            ("[{" ++ MiniJson.field "text" (MiniJson.str "Hel") ++ "}]")
   ++ "}")%string.

Definition loPayload : string :=
  ("{" ++ MiniJson.field "choices"
            ("[{" ++ MiniJson.field "text" (MiniJson.str "lo") ++ ","
             ++ MiniJson.field "finish_reason" (MiniJson.str "stop")
             ++ "}]")
   ++ "}")%string.

(** A comment line, a payload that is no JSON and a chunk without choices. *)
Definition keepAliveLine : ScanLine :=
  {| lineText := ": keep-alive"; pendingErr := None |}.

Definition brokenLine : ScanLine :=
  {| lineText := "data: {broken"; pendingErr := None |}.

Definition emptyChunkLine : ScanLine :=
  {| lineText := "data: {}"; pendingErr := None |}.

Definition dataLine (payload : string) : ScanLine :=
  {| lineText := ("data: " ++ payload)%string; pendingErr := None |}.

(** A chunk that reports the finish reason length. *)
Definition lengthPayload : string :=
  ("{" ++ MiniJson.field "choices"
            ("[{" ++ MiniJson.field "text" (MiniJson.str "Hel") ++ ","
             ++ MiniJson.field "finish_reason" (MiniJson.str "length")
             ++ "}]")
   ++ "}")%string.

(** A chunk that carries the whole reply and a usage report of seven
    completion tokens. *)
Definition usagePayload : string :=
  ("{" ++ MiniJson.field "choices"
            ("[{" ++ MiniJson.field "text" (MiniJson.str "Hello") ++ ","
             ++ MiniJson.field "finish_reason" (MiniJson.str "stop")
             ++ "}]")
   ++ ","
   ++ MiniJson.field "usage"
        ("{" ++ MiniJson.field "prompt_tokens" "12" ++ ","
         ++ MiniJson.field "completion_tokens" "7" ++ ","
         ++ MiniJson.field "total_tokens" "19" ++ "}")
   ++ "}")%string.

Definition usageTransport : Transport :=
  serving
    [DoResponse 200
       (sseBody [("data: " ++ usagePayload)%string; "data: [DONE]"])].

Definition mockSendStreaming (input : string) (c : Conversation)
    (w : Transport * list (string * bool))
    : SendOut * Conversation * (Transport * list (string * bool)) :=
  SendStreaming (H := MiniJson.decoder) input true c w.

(* ===================================================================== *)
(** * Properties                                                          *)
(* ===================================================================== *)

(** ** Strings *)

Lemma sapp_assoc (a b c : string) : ((a ++ b) ++ c = a ++ (b ++ c))%string.
Proof. induction a as [| x a IH]; simpl; [reflexivity | now rewrite IH]. Qed.

Lemma sapp_nil_r (a : string) : (a ++ EmptyString)%string = a.
Proof. induction a as [| x a IH]; simpl; [reflexivity | now rewrite IH]. Qed.

Lemma length_sapp (a b : string) :
  String.length (a ++ b)%string = (String.length a + String.length b)%nat.
Proof. induction a as [| x a IH]; simpl; [reflexivity | now rewrite IH]. Qed.

Lemma sapp_eq_split (a b c d : string) :
  (a ++ b = c ++ d)%string ->
  (exists u, c = a ++ u /\ b = u ++ d)%string
  \/ (exists u, a = c ++ u /\ d = u ++ b)%string.
Proof.
  revert c. induction a as [| x a IH]; intros c Heq.
  - left. now exists c.
  - destruct c as [| y c].
    + right. now exists (String x a).
    + simpl in Heq. injection Heq as <- Heq.
      destruct (IH c Heq) as [(u & -> & ->) | (u & -> & ->)];
        [left | right]; now exists u.
Qed.

(** ** Turn merge *)

Lemma setContentAt_app (pre : list Message) (m : Message) (post : list Message)
    (content : string) :
  setContentAt (length pre) content (pre ++ m :: post)
  = pre ++ {| Role := Role m; Content := content |} :: post.
Proof.
  induction pre as [| x pre IH]; simpl; [reflexivity |].
  now rewrite IH.
Qed.

Lemma two_last (A : Type) (l : list A) :
  (2 <= length l)%nat -> exists pre a b, l = pre ++ [a; b].
Proof.
  intros Hlen.
  destruct (exists_last (l := l)) as [l1 [b ->]].
  { intros ->. simpl in Hlen. lia. }
  destruct (exists_last (l := l1)) as [pre [a ->]].
  { intros ->. simpl in Hlen. lia. }
  exists pre, a, b. now rewrite <- app_assoc.
Qed.

(** What the merge does to a history of at least two turns. *)
Lemma mergeLastTwo_snoc2 (pre : list Message) (a b : Message) :
  mergeLastTwo (pre ++ [a; b])
  = if (Role b =? "assistant") && (Role a =? "assistant")
    then pre ++ [mergedTurn a b]
    else pre ++ [a; b].
Proof.
  unfold mergeLastTwo.
  assert (Hlen : length (pre ++ [a; b]) = S (S (length pre))).
  { rewrite length_app. simpl. lia. }
  rewrite Hlen.
  replace (S (S (length pre)) <? 2)%nat with false
    by (symmetry; apply Nat.ltb_ge; lia).
  replace (S (S (length pre)) - 1)%nat with (S (length pre)) by lia.
  replace (S (length pre) - 1)%nat with (length pre) by lia.
  assert (Hb : nth_error (pre ++ [a; b]) (S (length pre)) = Some b).
  { replace (pre ++ [a; b]) with ((pre ++ [a]) ++ [b])
      by now rewrite <- app_assoc.
    replace (S (length pre)) with (length (pre ++ [a]))
      by (rewrite length_app; simpl; lia).
    now rewrite nth_error_app2, Nat.sub_diag by lia. }
  assert (Ha : nth_error (pre ++ [a; b]) (length pre) = Some a).
  { now rewrite nth_error_app2, Nat.sub_diag by lia. }
  rewrite Hb, Ha.
  destruct (Role b =? "assistant"), (Role a =? "assistant");
    cbn [negb orb andb]; try reflexivity.
  rewrite setContentAt_app. fold (mergedTurn a b).
  change (pre ++ mergedTurn a b :: [b])
    with (pre ++ [mergedTurn a b] ++ [b]).
  rewrite app_assoc.
  replace (S (length pre)) with (length (pre ++ [mergedTurn a b]) + 0)%nat
    by (rewrite length_app; simpl; lia).
  rewrite firstn_app_2. simpl. now rewrite app_nil_r.
Qed.

Lemma mergeLastTwo_short (ms : list Message) :
  (length ms < 2)%nat -> mergeLastTwo ms = ms.
Proof.
  intros Hlen. unfold mergeLastTwo.
  now replace (length ms <? 2)%nat with true
    by (symmetry; apply Nat.ltb_lt; lia).
Qed.

Lemma snoc2_inj (A : Type) (p q : list A) (a b a' b' : A) :
  p ++ [a; b] = q ++ [a'; b'] -> p = q /\ a = a' /\ b = b'.
Proof.
  intros Heq.
  change (p ++ [a; b]) with (p ++ [a] ++ [b]) in Heq.
  change (q ++ [a'; b']) with (q ++ [a'] ++ [b']) in Heq.
  rewrite !app_assoc in Heq.
  apply app_inj_tail in Heq as [Heq ->].
  apply app_inj_tail in Heq as [-> ->]. auto.
Qed.

(** The merge leaves the history alone unless it ends with two assistant
    turns. *)
Lemma mergeLastTwo_unchanged_iff (ms : list Message) :
  mergeLastTwo ms = ms <-> ~ endsWithTwoAssistants ms.
Proof.
  split.
  - intros Heq (pre & a & b & -> & Ha & Hb).
    rewrite mergeLastTwo_snoc2 in Heq.
    unfold assistantTurn in *. rewrite Ha, Hb in Heq. simpl in Heq.
    apply (f_equal (@length _)) in Heq. rewrite !length_app in Heq.
    simpl in Heq. lia.
  - intros Hno.
    destruct (Nat.lt_ge_cases (length ms) 2) as [Hlt | Hge].
    + now apply mergeLastTwo_short.
    + destruct (two_last ms Hge) as (pre & a & b & ->).
      rewrite mergeLastTwo_snoc2.
      destruct (String.eqb_spec (Role b) "assistant") as [Hb | Hb];
        [| reflexivity].
      destruct (String.eqb_spec (Role a) "assistant") as [Ha | Ha];
        [| reflexivity].
      exfalso. apply Hno. now exists pre, a, b.
Qed.

Lemma mergeLastTwo_changed_iff (ms : list Message) :
  mergeLastTwo ms <> ms <-> endsWithTwoAssistants ms.
Proof.
  split.
  - intros Hne.
    destruct (Nat.lt_ge_cases (length ms) 2) as [Hlt | Hge].
    + now rewrite mergeLastTwo_short in Hne.
    + destruct (two_last ms Hge) as (pre & a & b & ->).
      rewrite mergeLastTwo_snoc2 in Hne.
      destruct (String.eqb_spec (Role b) "assistant") as [Hb | Hb];
        [| now contradiction Hne].
      destruct (String.eqb_spec (Role a) "assistant") as [Ha | Ha];
        [| now contradiction Hne].
      now exists pre, a, b.
  - intros Hends Heq. now apply mergeLastTwo_unchanged_iff in Heq.
Qed.

Lemma mergeLastTwo_merges (pre : list Message) (a b : Message) :
  assistantTurn a -> assistantTurn b ->
  mergeLastTwo (pre ++ [a; b]) = pre ++ [mergedTurn a b].
Proof.
  unfold assistantTurn. intros Ha Hb.
  now rewrite mergeLastTwo_snoc2, Ha, Hb.
Qed.

Lemma mergeLastTwo_twice (ms : list Message) :
  mergeLastTwo (mergeLastTwo ms) = mergeLastTwo ms
  <-> ~ endsWithThreeAssistants ms.
Proof.
  split.
  - intros Heq (pre & a & b & d & -> & Ha & Hb & Hd).
    change (pre ++ [a; b; d]) with (pre ++ [a] ++ [b; d]) in Heq.
    rewrite app_assoc, (mergeLastTwo_merges _ Hb Hd) in Heq.
    rewrite <- app_assoc in Heq. simpl in Heq.
    rewrite (mergeLastTwo_merges (b := mergedTurn b d) pre Ha) in Heq
      by exact Hb.
    apply (f_equal (@length _)) in Heq. rewrite !length_app in Heq.
    simpl in Heq. lia.
  - intros Hno.
    destruct (Nat.lt_ge_cases (length ms) 2) as [Hlt | Hge].
    { now rewrite !(mergeLastTwo_short ms Hlt). }
    destruct (two_last ms Hge) as (pre & a & b & ->).
    pose proof (mergeLastTwo_snoc2 pre a b) as Hm.
    destruct ((Role b =? "assistant") && (Role a =? "assistant")) eqn:E;
      [| now rewrite !Hm].
    apply andb_true_iff in E as [Hb Ha].
    apply String.eqb_eq in Ha, Hb.
    rewrite Hm.
    destruct (Nat.lt_ge_cases (length pre) 1) as [Hp | Hp].
    { apply mergeLastTwo_short. rewrite length_app. simpl. lia. }
    destruct (exists_last (l := pre)) as [pre' [x ->]].
    { intros ->. simpl in Hp. lia. }
    rewrite <- app_assoc. simpl.
    rewrite mergeLastTwo_snoc2.
    destruct (String.eqb_spec (Role x) "assistant") as [Hx | Hx];
      [| now rewrite andb_false_r].
    exfalso. apply Hno. exists pre', x, a, b.
    rewrite <- app_assoc. now simpl.
Qed.

(** C1, as stated, fails: on a history of three assistant turns the first
    merge joins the last two, and the second merge joins the result with
    the first turn. *)
Lemma merge_twice_counterexample :
  Messages (MergeIfLastTwoAssistant threeAssistantTurns)
  = [ {| Role := "assistant"; Content := "a " |};
      {| Role := "assistant"; Content := " bc" |} ]
  /\ Messages (MergeIfLastTwoAssistant
                 (MergeIfLastTwoAssistant threeAssistantTurns))
     = [ {| Role := "assistant"; Content := "abc" |} ]
  /\ (MergeIfLastTwoAssistant (MergeIfLastTwoAssistant threeAssistantTurns)
      = MergeIfLastTwoAssistant threeAssistantTurns -> False).
Proof.
  split; [reflexivity | split; [reflexivity |]].
  intros Heq. apply (f_equal Messages) in Heq. vm_compute in Heq.
  discriminate Heq.
Qed.

(** C1 (amended): merging twice is the same as merging once exactly on the
    histories that do not end with three assistant turns; in particular on
    every history the continuation loop produces, which merges after each
    reply. *)
Theorem MergeIfLastTwoAssistant_idempotent (c : Conversation) :
  MergeIfLastTwoAssistant (MergeIfLastTwoAssistant c)
  = MergeIfLastTwoAssistant c
  <-> ~ endsWithThreeAssistants (Messages c).
Proof.
  rewrite <- mergeLastTwo_twice. unfold MergeIfLastTwoAssistant, setMessages.
  simpl. split.
  - intros Heq. now injection Heq.
  - intros Heq. now rewrite Heq.
Qed.

Lemma snoc3_inj (A : Type) (p q : list A) (a b d a' b' d' : A) :
  p ++ [a; b; d] = q ++ [a'; b'; d'] -> p = q /\ a = a'.
Proof.
  intros Heq.
  change (p ++ [a; b; d]) with (p ++ [a] ++ [b; d]) in Heq.
  change (q ++ [a'; b'; d']) with (q ++ [a'] ++ [b'; d']) in Heq.
  rewrite !app_assoc in Heq.
  apply snoc2_inj in Heq as (Heq & _ & _).
  apply app_inj_tail in Heq. exact Heq.
Defined.

Lemma MergeIfLastTwoAssistant_idempotent_witness :
  MergeIfLastTwoAssistant (MergeIfLastTwoAssistant mergeTestConversation)
  = MergeIfLastTwoAssistant mergeTestConversation.
Proof.
  apply (proj2 (MergeIfLastTwoAssistant_idempotent mergeTestConversation)).
  intros (pre & a & b & d & Heq & Ha & _).
  change (Messages mergeTestConversation)
    with ([] ++ [ {| Role := "user"; Content := "Hello" |};
                  {| Role := "assistant"; Content := "First part" |};
                  {| Role := "assistant"; Content := "second part" |} ])
    in Heq.
  apply snoc3_inj in Heq as [_ <-]. discriminate Ha.
Defined.

(** *** The cutset of the earlier turn *)

Local Open Scope string_scope.

Lemma byteIn_mergeCutset (ch : ascii) :
  byteIn mergeCutset ch = true <-> blankByte ch.
Proof.
  unfold blankByte, byteIn. cbn [mergeCutset list_ascii_of_string existsb].
  change (list_ascii_of_string mergeCutset)
    with [ascii_of_nat 32; ascii_of_nat 9; ascii_of_nat 10; ascii_of_nat 13].
  cbn [existsb]. rewrite !orb_true_iff, !Ascii.eqb_eq.
  intuition discriminate.
Qed.

Lemma lastByte_cons (c : ascii) (t : string) (ch : ascii) :
  t <> EmptyString -> lastByte (String c t) ch -> lastByte t ch.
Proof.
  intros Hne [[| x u] Hu]; simpl in Hu.
  - injection Hu as _ Hu. contradiction.
  - injection Hu as _ Hu. now exists u.
Qed.

Lemma lastByte_tail (c : ascii) (t : string) (ch : ascii) :
  lastByte t ch -> lastByte (String c t) ch.
Proof. intros [u ->]. now exists (String c u). Qed.

Lemma TrimRight_sound (s : string) :
  withoutTrailingBlanks s (TrimRight s mergeCutset).
Proof.
  induction s as [| c s IH]; simpl.
  - split; [exists EmptyString; split; [reflexivity | constructor] |].
    intros ch [[| x u] Hu]; discriminate Hu.
  - destruct IH as [(ws & Hs & Hws) Hlast].
    destruct (TrimRight s mergeCutset) as [| x t] eqn:Ht.
    + simpl in Hs. subst ws.
      destruct (byteIn mergeCutset c) eqn:Hc.
      * split.
        -- exists (String c s). split; [reflexivity |].
           constructor; [now apply byteIn_mergeCutset | exact Hws].
        -- intros ch [[| y u] Hu]; discriminate Hu.
      * split.
        -- exists s. split; [reflexivity | exact Hws].
        -- intros ch [[| y u] Hu]; simpl in Hu.
           ++ injection Hu as <-. intros Hb.
              apply byteIn_mergeCutset in Hb. congruence.
           ++ injection Hu as _ Hu. destruct u; discriminate Hu.
    + split.
      * exists ws. split; [simpl; now rewrite Hs | exact Hws].
      * intros ch Hch. apply Hlast.
        apply lastByte_cons in Hch; [exact Hch | discriminate].
Qed.

Lemma allBlank_app (a b : string) :
  allBlank (a ++ b) -> allBlank a /\ allBlank b.
Proof.
  unfold allBlank. induction a as [| x a IH]; simpl; intros Hall.
  - split; [constructor | exact Hall].
  - inversion Hall as [| y l Hx Hrest]; subst.
    destruct (IH Hrest) as [Ha Hb]. split; [now constructor | exact Hb].
Qed.

Lemma lastByte_exists (c : ascii) (t : string) :
  exists ch, lastByte (String c t) ch.
Proof.
  revert c. induction t as [| x t IH]; intros c.
  - exists c. now exists EmptyString.
  - destruct (IH x) as [ch Hch]. exists ch. now apply lastByte_tail.
Qed.

(** A string that ends with no blank is no prefix of blanks. *)
Lemma blanks_have_no_trimmed_prefix (t ws' ws : string) :
  ws = t ++ ws' -> allBlank ws ->
  (forall ch, lastByte t ch -> ~ blankByte ch) ->
  t = EmptyString.
Proof.
  intros -> Hall Hlast. destruct t as [| c t]; [reflexivity |].
  destruct (lastByte_exists c t) as [ch Hch].
  exfalso. apply (Hlast ch Hch).
  destruct Hch as [u Hu]. rewrite Hu, sapp_assoc in Hall.
  apply allBlank_app in Hall as [_ Hall].
  now inversion Hall.
Qed.

Lemma withoutTrailingBlanks_unique (s t t' : string) :
  withoutTrailingBlanks s t -> withoutTrailingBlanks s t' -> t = t'.
Proof.
  intros [(ws & Hs & Hws) Hlast] [(ws' & Hs' & Hws') Hlast'].
  subst s. revert t' Hs' Hlast'.
  induction t as [| c t IH]; intros t' Hs' Hlast'.
  - simpl in Hs'. symmetry.
    exact (@blanks_have_no_trimmed_prefix t' ws' ws Hs' Hws Hlast').
  - destruct t' as [| c' t'].
    + exact (@blanks_have_no_trimmed_prefix (String c t) ws ws' (eq_sym Hs')
               Hws' Hlast).
    + simpl in Hs'. injection Hs' as <- Hs'. f_equal.
      apply IH; [| exact Hs' |].
      * intros ch Hch. apply Hlast. now apply lastByte_tail.
      * intros ch Hch. apply Hlast'. now apply lastByte_tail.
Qed.

(** *** White space *)

Lemma spaceTokens_utf8 : map utf8 whiteSpaceRunes = spaceTokens.
Proof. reflexivity. Qed.

Lemma isSpaceToken_spec (w : string) :
  isSpaceToken w = true <-> whiteSpace w.
Proof.
  unfold isSpaceToken, whiteSpace. rewrite existsb_exists.
  rewrite <- spaceTokens_utf8. split.
  - intros (x & Hin & Heq). apply String.eqb_eq in Heq. subst x.
    apply in_map_iff in Hin as (r & Hr & Hin). now exists r.
  - intros (r & Hin & ->). exists (utf8 r). split; [| apply String.eqb_refl].
    now apply in_map.
Qed.

(** The tokens, one by one. *)
Lemma isSpaceToken_cases (w : string) :
  isSpaceToken w = true ->
  In w ltac:(let l := eval vm_compute in spaceTokens in exact l).
Proof.
  unfold isSpaceToken. rewrite existsb_exists.
  intros (x & Hin & Heq). apply String.eqb_eq in Heq. now subst x.
Qed.

Ltac each_token H :=
  apply isSpaceToken_cases in H; cbn [In] in H;
  repeat (destruct H as [H | H]; [symmetry in H; subst |]);
  [.. | contradiction].

(** What [trimLeftSpace] does at the front of a string: it stops at a
    string that starts with no token, and drops a token otherwise. *)
Lemma trimLeftSpace_step (s : string) :
  (trimLeftSpace s = s
   /\ forall w rest, isSpaceToken w = true -> s <> w ++ rest)
  \/ (exists w rest,
        isSpaceToken w = true /\ s = w ++ rest
        /\ trimLeftSpace s = trimLeftSpace rest).
Proof.
  destruct s as [| c1 r1].
  { left. split; [reflexivity |]. intros w rest Hw Heq.
    destruct w; [discriminate Hw | discriminate Heq]. }
  cbn [trimLeftSpace].
  destruct (isSpaceToken (String c1 EmptyString)) eqn:H1.
  { right. now exists (String c1 EmptyString), r1. }
  destruct r1 as [| c2 r2].
  { left. split; [reflexivity |]. intros w rest Hw Heq.
    each_token Hw; simpl in Heq; try discriminate Heq;
      injection Heq as -> _; discriminate H1. }
  destruct (isSpaceToken (String c1 (String c2 EmptyString))) eqn:H2.
  { right. now exists (String c1 (String c2 EmptyString)), r2. }
  destruct r2 as [| c3 r3].
  { left. split; [reflexivity |]. intros w rest Hw Heq.
    each_token Hw; simpl in Heq; try discriminate Heq;
      injection Heq; intros; subst;
      first [discriminate H1 | discriminate H2]. }
  destruct (isSpaceToken (String c1 (String c2 (String c3 EmptyString))))
    eqn:H3.
  { right. now exists (String c1 (String c2 (String c3 EmptyString))), r3. }
  left. split; [reflexivity |]. intros w rest Hw Heq.
  each_token Hw; simpl in Heq; injection Heq; intros; subst;
    first [discriminate H1 | discriminate H2 | discriminate H3].
Qed.

Lemma token_not_empty (w : string) :
  isSpaceToken w = true -> (0 < String.length w)%nat.
Proof. intros Hw. each_token Hw; simpl; lia. Qed.

Lemma trimLeftSpace_sound (s : string) :
  exists l,
    s = l ++ trimLeftSpace s /\ allWhite l
    /\ forall w rest, isSpaceToken w = true -> trimLeftSpace s <> w ++ rest.
Proof.
  remember (String.length s) as n eqn:Hn. revert s Hn.
  induction n as [n IH] using lt_wf_ind. intros s Hn.
  destruct (trimLeftSpace_step s) as [[Hstop Hnone] | (w & rest & Hw & Hs & Hgo)].
  - exists EmptyString. rewrite Hstop. repeat split; [constructor | exact Hnone].
  - destruct (IH (String.length rest)) with (s := rest)
      as (l & Hrest & Hl & Hnone); [| reflexivity |].
    + subst. rewrite length_sapp. pose proof (token_not_empty w Hw). lia.
    + exists (w ++ l). rewrite Hgo. repeat split.
      * now rewrite sapp_assoc, <- Hrest.
      * constructor; [now apply isSpaceToken_spec | exact Hl].
      * exact Hnone.
Qed.

Lemma trimRightSpace_sound (s : string) :
  exists r,
    s = trimRightSpace s ++ r /\ allWhite r
    /\ forall w rest, isSpaceToken w = true -> trimRightSpace s <> rest ++ w.
Proof.
  induction s as [| c s (r & Hs & Hr & Hnone)]; cbn [trimRightSpace].
  - exists EmptyString. repeat split; [constructor |].
    intros w rest Hw Heq. pose proof (token_not_empty w Hw) as Hlen.
    apply (f_equal String.length) in Heq. rewrite length_sapp in Heq.
    simpl in Heq. lia.
  - cbv zeta.
    destruct (isSpaceToken (String c (trimRightSpace s))) eqn:Hc.
    + exists (String c (trimRightSpace s) ++ r). repeat split.
      * simpl. now rewrite <- Hs.
      * constructor; [now apply isSpaceToken_spec | exact Hr].
      * intros w rest Hw Heq. pose proof (token_not_empty w Hw) as Hlen.
        apply (f_equal String.length) in Heq. rewrite length_sapp in Heq.
        simpl in Heq. lia.
    + exists r. repeat split; [simpl; now rewrite <- Hs | exact Hr |].
      intros w [| x rest] Hw Heq; simpl in Heq.
      * rewrite <- Heq in Hw. congruence.
      * injection Heq as _ Heq. exact (Hnone w rest Hw Heq).
Qed.

Lemma TrimSpace_sound (s : string) :
  withoutSurroundingWhiteSpace s (TrimSpace s).
Proof.
  unfold TrimSpace.
  destruct (trimLeftSpace_sound s) as (l & Hs & Hl & Hfront).
  destruct (trimRightSpace_sound (trimLeftSpace s)) as (r & Hu & Hr & Hback).
  repeat split.
  - exists l, r. now rewrite <- Hu.
  - intros w rest Hw Heq. apply isSpaceToken_spec in Hw.
    apply (Hfront w (rest ++ r) Hw).
    now rewrite Hu at 1; rewrite Heq, sapp_assoc.
  - intros w rest Hw. apply isSpaceToken_spec in Hw. now apply Hback.
Qed.

(** *** The trimmed string is the only one *)

Lemma trimLeftSpace_token (w x : string) :
  isSpaceToken w = true -> trimLeftSpace (w ++ x) = trimLeftSpace x.
Proof. intros Hw. each_token Hw; reflexivity. Qed.

Lemma trimLeftSpace_white (l x : string) :
  allWhite l -> trimLeftSpace (l ++ x) = trimLeftSpace x.
Proof.
  induction 1 as [| w s Hw _ IH]; [reflexivity |].
  apply isSpaceToken_spec in Hw.
  now rewrite sapp_assoc, trimLeftSpace_token.
Qed.

Lemma trimRightSpace_white (r : string) :
  allWhite r -> trimRightSpace r = EmptyString.
Proof.
  induction 1 as [| w s Hw _ IH]; [reflexivity |].
  apply isSpaceToken_spec in Hw.
  each_token Hw; cbn [trimRightSpace String.append]; rewrite IH; reflexivity.
Qed.

Lemma token_shape (w : string) :
  isSpaceToken w = true ->
  exists b w',
    w = String b w' /\ continuation b = false
    /\ Forall (fun x => continuation x = true) (list_ascii_of_string w').
Proof.
  intros Hw.
  each_token Hw; eexists; eexists; (split; [reflexivity |]);
    (split; [reflexivity |]); repeat constructor.
Qed.

Lemma allWhite_first (b : ascii) (x : string) :
  allWhite (String b x) -> continuation b = false.
Proof.
  intros Hall. remember (String b x) as s eqn:Hs. revert b x Hs.
  induction Hall as [| w s Hw Hall IH]; intros b x Hs; [discriminate Hs |].
  apply isSpaceToken_spec in Hw.
  destruct (token_shape w Hw) as (b0 & w' & -> & Hb0 & _).
  simpl in Hs. now injection Hs as <- _.
Qed.

Lemma continuation_in_tail (l : list ascii) (t u : string) (b : ascii) :
  Forall (fun x => continuation x = true) l ->
  l = list_ascii_of_string (t ++ String b u) ->
  continuation b = true.
Proof.
  revert l. induction t as [| c t IH]; intros l Hall Hl; subst l.
  - now inversion Hall.
  - inversion Hall; subst. now apply (IH _ H2).
Qed.

(** What white space follows cannot complete a token that the string
    before it has begun. *)
Lemma no_token_across (t r : string) :
  t <> EmptyString -> allWhite r ->
  (forall w rest, isSpaceToken w = true -> t <> w ++ rest) ->
  forall w rest, isSpaceToken w = true -> t ++ r <> w ++ rest.
Proof.
  intros Hne Hr Hnone w rest Hw Heq.
  destruct (sapp_eq_split _ _ _ _ Heq) as [(u & Hwu & Hru) | (u & Htu & _)];
    [| exact (Hnone w u Hw Htu)].
  destruct u as [| b u].
  - rewrite sapp_nil_r in Hwu. subst w.
    apply (Hnone t EmptyString Hw). now rewrite sapp_nil_r.
  - subst r. simpl in Hr. apply allWhite_first in Hr.
    destruct (token_shape w Hw) as (b0 & w' & Hw' & _ & Htail).
    destruct t as [| c t]; [congruence |].
    rewrite Hw' in Hwu. simpl in Hwu. injection Hwu as _ Hwu.
    rewrite (continuation_in_tail t u b Htail ltac:(now rewrite Hwu)) in Hr.
    discriminate Hr.
Qed.

Lemma trimRightSpace_keeps (t r : string) :
  allWhite r ->
  (forall w rest, isSpaceToken w = true -> t <> rest ++ w) ->
  trimRightSpace (t ++ r) = t.
Proof.
  intros Hr. induction t as [| c t IH]; intros Hnone.
  - now apply trimRightSpace_white.
  - cbn [String.append trimRightSpace]. cbv zeta. rewrite IH.
    + destruct (isSpaceToken (String c t)) eqn:Hc; [| reflexivity].
      exfalso. now apply (Hnone (String c t) EmptyString Hc).
    + intros w rest Hw ->. now apply (Hnone w (String c rest) Hw).
Qed.

Lemma TrimSpace_complete (s t : string) :
  withoutSurroundingWhiteSpace s t -> TrimSpace s = t.
Proof.
  intros ((l & r & -> & Hl & Hr) & Hfront & Hback). unfold TrimSpace.
  rewrite (trimLeftSpace_white _ Hl).
  assert (Hfront' : forall w rest, isSpaceToken w = true -> t <> w ++ rest).
  { intros w rest Hw. apply Hfront. now apply isSpaceToken_spec. }
  assert (Hback' : forall w rest, isSpaceToken w = true -> t <> rest ++ w).
  { intros w rest Hw. apply Hback. now apply isSpaceToken_spec. }
  destruct t as [| c t].
  - simpl. rewrite <- (sapp_nil_r r), (trimLeftSpace_white _ Hr). reflexivity.
  - destruct (trimLeftSpace_step (String c t ++ r))
      as [[-> _] | (w & rest & Hw & Heq & _)].
    + now apply trimRightSpace_keeps.
    + exfalso.
      now apply (no_token_across (t := String c t) (r := r)
                   ltac:(discriminate) Hr Hfront' w rest Hw).
Qed.

Lemma withoutSurroundingWhiteSpace_unique (s t t' : string) :
  withoutSurroundingWhiteSpace s t -> withoutSurroundingWhiteSpace s t' ->
  t = t'.
Proof.
  intros Ht Ht'.
  now rewrite <- (TrimSpace_complete Ht), <- (TrimSpace_complete Ht').
Qed.

Local Open Scope list_scope.

(** C3, as stated, fails.  A vertical tab is white space, and the merge
    removes the one at the front of the later turn; the one at the end of
    the earlier turn stays, so the merged content is not the earlier
    content without its trailing white space followed by the later content
    without its surrounding white space. *)
Lemma merge_whitespace_counterexample :
  Messages (MergeIfLastTwoAssistant verticalTabTurns)
  = [ {| Role := "assistant"; Content := ("a" ++ vtab ++ "b")%string |} ]
  /\ whiteSpace vtab
  /\ ((exists earlier later,
          Messages (MergeIfLastTwoAssistant verticalTabTurns)
          = [ {| Role := "assistant";
                 Content := (earlier ++ later)%string |} ]
          /\ withoutTrailingWhiteSpace ("a" ++ vtab)%string earlier
          /\ withoutSurroundingWhiteSpace (vtab ++ "b")%string later)
      -> False).
Proof.
  assert (Hvt : whiteSpace vtab).
  { exists 0x0B%N. split; [simpl; tauto | reflexivity]. }
  split; [reflexivity | split; [exact Hvt |]].
  intros (earlier & later & Hms & [_ Hend] & Hlater).
  apply TrimSpace_complete in Hlater. vm_compute in Hlater. subst later.
  change (Messages (MergeIfLastTwoAssistant verticalTabTurns))
    with [ {| Role := "assistant";
              Content := String "a" (vtab ++ "b")%string |} ] in Hms.
  injection Hms as Hms.
  apply (Hend vtab "a" Hvt).
  destruct earlier as [| x [| y [| z earlier]]]; cbn in Hms;
    try discriminate Hms.
  - injection Hms as <- <-. reflexivity.
  - injection Hms as _ _ _ Hms. destruct earlier; discriminate Hms.
Qed.

(** C3 (amended): the merge changes the history exactly when it ends with
    two assistant turns.  Then the pair is replaced by one turn with the
    role of the first; its content is the first content without the spaces,
    tabs, line feeds and carriage returns at its end (and nothing else
    removed), followed directly by the second content without the Unicode
    white space around it.  Each of the two parts is the only string so
    described.  The turns before the pair and the rest of the conversation
    are as they were. *)
Theorem MergeIfLastTwoAssistant_spec (c : Conversation) :
  (Messages (MergeIfLastTwoAssistant c) <> Messages c
   <-> endsWithTwoAssistants (Messages c))
  /\ (Messages (MergeIfLastTwoAssistant c) = Messages c
      <-> ~ endsWithTwoAssistants (Messages c))
  /\ (forall pre a b,
        Messages c = pre ++ [a; b] -> assistantTurn a -> assistantTurn b ->
        exists earlier later,
          Messages (MergeIfLastTwoAssistant c)
          = pre ++ [ {| Role := Role a;
                        Content := (earlier ++ later)%string |} ]
          /\ withoutTrailingBlanks (Content a) earlier
          /\ withoutSurroundingWhiteSpace (Content b) later
          /\ (forall e, withoutTrailingBlanks (Content a) e -> e = earlier)
          /\ (forall l,
                 withoutSurroundingWhiteSpace (Content b) l -> l = later))
  /\ System (MergeIfLastTwoAssistant c) = System c
  /\ ConvUsage (MergeIfLastTwoAssistant c) = ConvUsage c
  /\ ApiToken (MergeIfLastTwoAssistant c) = ApiToken c
  /\ ConvSettings (MergeIfLastTwoAssistant c) = ConvSettings c.
Proof.
  split; [apply mergeLastTwo_changed_iff |].
  split; [apply mergeLastTwo_unchanged_iff |].
  split; [| now repeat split].
  intros pre a b Hms Ha Hb.
  exists (TrimRight (Content a) mergeCutset), (TrimSpace (Content b)).
  split; [| split; [| split; [| split]]].
  - simpl. rewrite Hms. now apply mergeLastTwo_merges.
  - apply TrimRight_sound.
  - apply TrimSpace_sound.
  - intros e He.
    exact (withoutTrailingBlanks_unique He (TrimRight_sound (Content a))).
  - intros l Hl. symmetry. now apply TrimSpace_complete.
Qed.

Lemma MergeIfLastTwoAssistant_spec_witness :
  Messages (MergeIfLastTwoAssistant paddedConversation)
  = [ {| Role := "user"; Content := "Hello" |};
      {| Role := "assistant"; Content := "First partsecond part" |} ].
Proof.
  destruct (proj1 (proj2 (proj2
              (MergeIfLastTwoAssistant_spec paddedConversation)))
              [ {| Role := "user"; Content := "Hello" |} ]
              {| Role := "assistant";
                 Content := ("First part " ++ tab ++ lf)%string |}
              {| Role := "assistant";
                 Content := (lf ++ " second part" ++ cr ++ lf)%string |}
              eq_refl eq_refl eq_refl)
    as (earlier & later & Hms & _ & _ & Hearlier & Hlater).
  rewrite Hms.
  rewrite <- (Hearlier "First part"
                (TrimRight_sound ("First part " ++ tab ++ lf)%string)).
  rewrite <- (Hlater "second part"
                (TrimSpace_sound (lf ++ " second part" ++ cr ++ lf)%string)).
  reflexivity.
Defined.

(** ** Stop reasons *)

(** C8: the table of [normalizeStopReason], and every other string,
    the empty one included, returned as it is. *)
Theorem normalizeStopReason_table :
  normalizeStopReason "stop" = "end_turn"
  /\ normalizeStopReason "length" = "max_tokens"
  /\ normalizeStopReason "tool_calls" = "tool_use"
  /\ normalizeStopReason EmptyString = EmptyString
  /\ forall reason,
       reason <> "stop" -> reason <> "length" -> reason <> "tool_calls" ->
       normalizeStopReason reason = reason.
Proof.
  repeat split.
  intros reason H1 H2 H3. unfold normalizeStopReason.
  apply String.eqb_neq in H1, H2, H3. now rewrite H1, H2, H3.
Qed.

Lemma normalizeStopReason_table_witness :
  normalizeStopReason "unknown" = "unknown".
Proof.
  apply (proj2 (proj2 (proj2 (proj2 normalizeStopReason_table))));
    discriminate.
Defined.

(** ** The prompt *)

Lemma writeMessage_unknown (thinking : bool) (n i : Z) (m : Message)
    (b : string) :
  knownRole (Role m) = false -> writeMessage thinking n i m b = b.
Proof.
  unfold knownRole, writeMessage. intros Hk.
  apply orb_false_iff in Hk as [Hk Hs].
  apply orb_false_iff in Hk as [Hu Ha].
  now rewrite Hu, Ha, Hs.
Qed.

Lemma writeMessage_known (thinking : bool) (n i : Z) (m : Message)
    (b : string) :
  knownRole (Role m) = true ->
  writeMessage thinking n i m b = (b ++ block thinking n (i, m))%string.
Proof.
  unfold knownRole, writeMessage, block, roleToken. intros Hk.
  destruct (Role m =? "user") eqn:Hu; simpl.
  - destruct ((i =? n - 1)%Z && negb thinking);
      now rewrite ?sapp_assoc, ?sapp_nil_r.
  - destruct (Role m =? "assistant") eqn:Ha; simpl.
    + now rewrite ?sapp_assoc.
    + destruct (Role m =? "system") eqn:Hs; [| discriminate Hk].
      now rewrite ?sapp_assoc.
Qed.

Lemma writeMessages_blocks (thinking : bool) (n : Z) (ms : list Message) :
  forall (i : Z) (b : string),
    writeMessages thinking n i ms b
    = (b ++ joinAll
              (map (block thinking n)
                 (filter (fun im => knownRole (Role (snd im)))
                    (indexedFrom i ms))))%string.
Proof.
  induction ms as [| m ms IH]; intros i b; simpl.
  - now rewrite sapp_nil_r.
  - rewrite IH. destruct (knownRole (Role m)) eqn:Hk; simpl.
    + now rewrite writeMessage_known, sapp_assoc.
    + now rewrite writeMessage_unknown.
Qed.

(** C10: the prompt is the head, the blocks of the messages whose role is
    user, assistant or system, in the order of the history, and the tail.
    A message of any other role is filtered out: neither a delimiter nor
    its content is written for it. *)
Theorem buildPrompt_known_roles_only (c : Conversation) :
  buildPrompt c
  = (promptHead c
     ++ joinAll
          (map (block (Thinking (ConvSettings c))
                  (Z.of_nat (length (Messages c))))
             (filter (fun im => knownRole (Role (snd im)))
                (indexedFrom 0 (Messages c))))
     ++ promptTail c)%string.
Proof.
  unfold buildPrompt, promptHead, promptTail.
  rewrite writeMessages_blocks.
  destruct (System c =? EmptyString), (Thinking (ConvSettings c)); simpl;
    now rewrite ?sapp_assoc, ?sapp_nil_r.
Qed.

(** C2: a history of the one user turn Hello under the system prompt sys.
    With thinking off the prompt holds the suffix /nothink once and the
    closing tag </think> once; with thinking on it holds neither.  The
    cited [buildPrompt] writes both markers from constants, so the think
    format of the settings, here that of GLM-4.6, does not enter. *)
Theorem buildPrompt_think_markers (c : Conversation) :
  System c = "sys" ->
  Messages c = [ {| Role := "user"; Content := "Hello" |} ] ->
  SettingsThinkFormat (ConvSettings c)
  = Some {| UserSuffix := "/nothink"; AssistantPrefix := "</think>" ++ lf |} ->
  occurrences "/nothink" (buildPrompt c)
  = (if Thinking (ConvSettings c) then 0 else 1)%nat
  /\ occurrences "</think>" (buildPrompt c)
     = (if Thinking (ConvSettings c) then 0 else 1)%nat.
Proof.
  intros Hsys Hms _. unfold buildPrompt. rewrite Hsys, Hms.
  destruct (Thinking (ConvSettings c)); split; reflexivity.
Qed.

Lemma buildPrompt_think_markers_witness :
  (occurrences "/nothink" (buildPrompt helloConversation) = 1%nat
   /\ occurrences "</think>" (buildPrompt helloConversation) = 1%nat)
  /\ (occurrences "/nothink" (buildPrompt (withThinking helloConversation))
      = 0%nat
      /\ occurrences "</think>"
           (buildPrompt (withThinking helloConversation)) = 0%nat).
Proof.
  split.
  - exact (buildPrompt_think_markers helloConversation
             eq_refl eq_refl eq_refl).
  - exact (buildPrompt_think_markers (withThinking helloConversation)
             eq_refl eq_refl eq_refl).
Defined.

(** ** Automatic continuation *)

Section ContinuationProperties.

Variable W : Type.

Variable send : string -> Conversation -> W -> SendOut * Conversation * W.

(** A run of truncated answers only moves the loop forward. *)
Lemma untilDoneFrom_run (input : string) (c : Conversation) (w : W)
    (ps : list SendOut) (input' : string) (c' : Conversation) (w' : W) :
  truncatedRun send input c w ps input' c' w' ->
  forall (fuel : nat) (total : string) (inTok outTok : Z),
    untilDoneFrom send (length ps + fuel) input total inTok outTok c w
    = untilDoneFrom send fuel input' (total ++ joinReplies ps)%string
        (sumTokens inputTokens inTok ps) (sumTokens outputTokens outTok ps)
        c' w'.
Proof.
  induction 1 as [input c w | input c w part c1 w1 ps input' c' w'
                                Hsend Herr Hstop Hrun IH];
    intros fuel total inTok outTok.
  - simpl. unfold joinReplies. simpl. now rewrite sapp_nil_r.
  - cbn [length Nat.add untilDoneFrom].
    rewrite Hsend, Herr, Hstop, String.eqb_refl. cbn [negb].
    rewrite IH. unfold joinReplies, sumTokens. simpl.
    now rewrite sapp_assoc.
Qed.

(** The loop ends on the first error. *)
Lemma untilDoneFrom_error (fuel : nat) (input total : string)
    (inTok outTok : Z) (c : Conversation) (w : W)
    (part : SendOut) (c1 : Conversation) (w1 : W) (e : SendError) :
  send input c w = (part, c1, w1) -> err part = Some e ->
  untilDoneFrom send (S fuel) input total inTok outTok c w
  = Some ({| reply := total; stopReason := stopReason part;
             inputTokens := inTok; outputTokens := outTok;
             err := Some e |}, c1, w1).
Proof. intros Hsend Herr. simpl. now rewrite Hsend, Herr. Qed.

(** The loop ends on the first answer that was not truncated. *)
Lemma untilDoneFrom_final (fuel : nat) (input total : string)
    (inTok outTok : Z) (c : Conversation) (w : W)
    (part : SendOut) (c1 : Conversation) (w1 : W) :
  send input c w = (part, c1, w1) -> err part = None ->
  stopReason part <> "max_tokens" ->
  untilDoneFrom send (S fuel) input total inTok outTok c w
  = Some ({| reply := (total ++ reply part)%string;
             stopReason := stopReason part;
             inputTokens := int_add inTok (inputTokens part);
             outputTokens := int_add outTok (outputTokens part);
             err := None |}, MergeIfLastTwoAssistant c1, w1).
Proof.
  intros Hsend Herr Hstop. simpl. rewrite Hsend, Herr.
  apply String.eqb_neq in Hstop. now rewrite Hstop.
Qed.

(** What the test double adds to a call. *)
Lemma spy_call (text : string) (c : Conversation) (w : W)
    (log : list string) (part : SendOut) (c1 : Conversation) (w1 : W) :
  send text c w = (part, c1, w1) ->
  spy send text c (w, log) = (part, c1, (w1, log ++ [text])).
Proof. intros Hsend. unfold spy. simpl. now rewrite Hsend. Qed.

Lemma truncatedRun_spy (input : string) (c : Conversation) (w : W)
    (ps : list SendOut) (input' : string) (c' : Conversation) (w' : W) :
  truncatedRun send input c w ps input' c' w' ->
  forall log : list string,
    truncatedRun (spy send) input c (w, log) ps input' c'
      (w', log ++ match ps with
                  | [] => []
                  | _ :: rest => input :: map (fun _ => EmptyString) rest
                  end).
Proof.
  induction 1 as [input c w | input c w part c1 w1 ps input' c' w'
                                Hsend Herr Hstop Hrun IH]; intros log.
  - rewrite app_nil_r. constructor.
  - eapply run_more; eauto using spy_call.
    specialize (IH (log ++ [input])).
    destruct ps as [| p ps]; rewrite <- app_assoc in IH; simpl in IH.
    + inversion Hrun; subst. exact IH.
    + exact IH.
Qed.

End ContinuationProperties.

(** C4: around a [send] whose first two calls return the stop reason
    max_tokens and whose third returns another one (stop, say), the loop
    makes exactly three calls, the first with the caller's text and the
    others with the empty text, each on the history as the merge left it;
    it returns the three replies joined, the token counts summed, the last
    stop reason and no error, and has merged after the third call too.
    And when a call returns an error after any number of truncated
    answers, the loop returns that error with the replies and counts of
    the answers before it. *)
Theorem SendUntilDone_continuation (W : Type)
    (send : string -> Conversation -> W -> SendOut * Conversation * W) :
  (forall (text : string) (c0 : Conversation) (w0 : W)
          (p1 : SendOut) (c1 : Conversation) (w1 : W)
          (p2 : SendOut) (c2 : Conversation) (w2 : W)
          (p3 : SendOut) (c3 : Conversation) (w3 : W) (fuel : nat),
      send text c0 w0 = (p1, c1, w1) ->
      err p1 = None -> stopReason p1 = "max_tokens" ->
      send EmptyString (MergeIfLastTwoAssistant c1) w1 = (p2, c2, w2) ->
      err p2 = None -> stopReason p2 = "max_tokens" ->
      send EmptyString (MergeIfLastTwoAssistant c2) w2 = (p3, c3, w3) ->
      err p3 = None -> stopReason p3 <> "max_tokens" ->
      (3 <= fuel)%nat ->
      untilDone (spy send) fuel text c0 (w0, [])
      = Some ({| reply := (reply p1 ++ reply p2 ++ reply p3)%string;
                 stopReason := stopReason p3;
                 inputTokens :=
                   int_add (int_add (int_add 0 (inputTokens p1))
                              (inputTokens p2)) (inputTokens p3);
                 outputTokens :=
                   int_add (int_add (int_add 0 (outputTokens p1))
                              (outputTokens p2)) (outputTokens p3);
                 err := None |},
              MergeIfLastTwoAssistant c3,
              (w3, [text; EmptyString; EmptyString])))
  /\ (forall (text : string) (c0 : Conversation) (w0 : W)
             (ps : list SendOut) (input : string) (ck : Conversation)
             (wk : W) (failure : SendOut) (ce : Conversation) (we : W)
             (e : SendError) (fuel : nat),
        truncatedRun send text c0 w0 ps input ck wk ->
        send input ck wk = (failure, ce, we) ->
        err failure = Some e ->
        (length ps < fuel)%nat ->
        untilDone send fuel text c0 w0
        = Some ({| reply := joinReplies ps;
                   stopReason := stopReason failure;
                   inputTokens := sumTokens inputTokens 0 ps;
                   outputTokens := sumTokens outputTokens 0 ps;
                   err := Some e |}, ce, we)).
Proof.
  split.
  - intros text c0 w0 p1 c1 w1 p2 c2 w2 p3 c3 w3 fuel
      H1 E1 S1 H2 E2 S2 H3 E3 S3 Hfuel.
    assert (Hrun : truncatedRun send text c0 w0 [p1; p2] EmptyString
                     (MergeIfLastTwoAssistant c2) w2).
    { eapply run_more; eauto. eapply run_more; eauto. constructor. }
    apply truncatedRun_spy with (log := []) in Hrun.
    replace fuel with (length [p1; p2] + S (fuel - 3))%nat by (simpl; lia).
    unfold untilDone. rewrite (untilDoneFrom_run Hrun).
    erewrite untilDoneFrom_final; eauto using spy_call.
    unfold joinReplies, sumTokens. simpl.
    now rewrite sapp_nil_r, sapp_assoc.
  - intros text c0 w0 ps input ck wk failure ce we e fuel
      Hrun Hsend Herr Hfuel.
    replace fuel with (length ps + S (fuel - length ps - 1))%nat by lia.
    unfold untilDone. rewrite (untilDoneFrom_run Hrun).
    now erewrite untilDoneFrom_error; eauto.
Qed.

(** ** Send *)

Section SendProperties.

Context `{Json}.

Lemma addUserTurn_messages (text : string) (c c1 : Conversation) :
  addUserTurn text c = Some c1 ->
  Messages c1
  = Messages c ++ (if text =? EmptyString then [] else [userTurn text])
  /\ ConvUsage c1 = ConvUsage c.
Proof.
  unfold addUserTurn. destruct (text =? EmptyString); simpl.
  - destruct (length (Messages c) =? 0)%nat; [discriminate |].
    intros [= <-]. now rewrite app_nil_r.
  - now intros [= <-].
Qed.

Lemma addUserTurn_none (text : string) (c : Conversation) :
  addUserTurn text c = None -> text = EmptyString /\ Messages c = [].
Proof.
  unfold addUserTurn.
  destruct (String.eqb_spec text EmptyString) as [-> | Hne]; simpl;
    [| discriminate].
  destruct (Messages c); simpl; [auto | discriminate].
Qed.

(** A transport failure is retried three times: four calls in all, each
    with the same request, and the last error is the one reported. *)
Lemma doWithRetries_exhausted (req : completionRequest) (w : Transport)
    (e1 e2 e3 e4 : string) (rest : list HttpResult) :
  outcomes w = DoError e1 :: DoError e2 :: DoError e3 :: DoError e4 :: rest ->
  doWithRetries retries req w
  = (DoError e4,
     {| outcomes := rest; requests := requests w ++ [req; req; req; req] |}).
Proof.
  intros Hout. unfold retries. simpl. unfold Do. rewrite Hout. simpl.
  now rewrite <- !app_assoc.
Qed.

(** A response ends the retries at once, whatever its status. *)
Lemma doWithRetries_response (req : completionRequest) (w : Transport)
    (status : Z) (body : Body) (rest : list HttpResult) :
  outcomes w = DoResponse status body :: rest ->
  doWithRetries retries req w
  = (DoResponse status body,
     {| outcomes := rest; requests := requests w ++ [req] |}).
Proof. intros Hout. unfold retries. simpl. unfold Do. now rewrite Hout. Qed.

(** C6 (amended): a call of [Send] that fails leaves the usage counters
    as they were and appends no assistant turn; the history is as before,
    with the text appended as a user turn when it is not empty and the
    credential check had passed.  A call that succeeds appends the user
    turn (for a text that is not empty) and the assistant's reply, and
    adds the reported token counts to the usage. *)
Theorem Send_history_and_usage (text : string) (sampling : Sampling)
    (c : Conversation) (w : Transport)
    (out : SendOut) (c' : Conversation) (w' : Transport) :
  Send text sampling c w = (out, c', w') ->
  match err out with
  | Some _ =>
      Messages c' = Messages c ++ keptUserTurn c text
      /\ ConvUsage c' = ConvUsage c
  | None =>
      Messages c'
      = Messages c ++ (if text =? EmptyString then [] else [userTurn text])
        ++ [assistantReply (reply out)]
      /\ ConvUsage c'
         = {| InputTokens :=
                int_add (InputTokens (ConvUsage c)) (inputTokens out);
              OutputTokens :=
                int_add (OutputTokens (ConvUsage c)) (outputTokens out) |}
  end.
Proof.
  unfold Send, keptUserTurn.
  destruct (ApiToken c =? EmptyString) eqn:Htok.
  { intros [= <- <- <-]. simpl. now rewrite app_nil_r. }
  destruct (addUserTurn text c) as [c1 |] eqn:Hadd.
  2:{ intros [= <- <- <-]. simpl.
      apply addUserTurn_none in Hadd as [-> _]. simpl.
      now rewrite app_nil_r. }
  apply addUserTurn_messages in Hadd as [Hms Hus]. cbn [orb].
  match goal with
  | |- context [marshalOk ?r] => destruct (marshalOk r)
  end; cbn [negb].
  2:{ now intros [= <- <- <-]. }
  match goal with
  | |- context [doWithRetries ?n ?r ?t] =>
      destruct (doWithRetries n r t) as [[cause | status body] w1]
  end.
  { now intros [= <- <- <-]. }
  destruct (bodyErr body); [now intros [= <- <- <-] |].
  destruct (negb (status =? StatusOK)%Z); [now intros [= <- <- <-] |].
  destruct (unmarshalResponse (bodyData body)) as [compResp |];
    [| now intros [= <- <- <-]].
  destruct (Choices compResp) as [| choice rest];
    [now intros [= <- <- <-] |].
  intros [= <- <- <-]. simpl. rewrite Hms, Hus, <- app_assoc. auto.
Qed.

End SendProperties.

(** *** Runs on concrete transports *)

Lemma SendUntilDone_continuation_witness :
  (exists (c' : Conversation) (w' : Transport),
      untilDone (spy mockSend) 3 "Tell me a story." storyConversation
        (storyTransport, [])
      = Some ({| reply := "Once upon a time."; stopReason := "end_turn";
                 inputTokens := 36; outputTokens := 5; err := None |},
              c', (w', ["Tell me a story."; EmptyString; EmptyString]))
      /\ calls w' = 3%nat
      /\ Messages c'
         = [ {| Role := "user"; Content := "Tell me a story." |};
             {| Role := "assistant"; Content := "Once upona time." |} ])
  /\ (exists (c' : Conversation) (w' : Transport),
         SendUntilDone (H := MiniJson.decoder) 2 "Tell me a story."
           noSampling storyConversation failingTransport
         = Some ({| reply := "Once upon"; stopReason := EmptyString;
                    inputTokens := 10; outputTokens := 2;
                    err := Some (ErrAPIStatus 500 "overloaded") |}, c', w')
         /\ calls w' = 2%nat
         /\ Messages c'
            = [ {| Role := "user"; Content := "Tell me a story." |};
                {| Role := "assistant"; Content := "Once upon" |} ]).
Proof.
  split.
  - pose (r1 := mockSend "Tell me a story." storyConversation storyTransport).
    pose (r2 := mockSend EmptyString
                  (MergeIfLastTwoAssistant (snd (fst r1))) (snd r1)).
    pose (r3 := mockSend EmptyString
                  (MergeIfLastTwoAssistant (snd (fst r2))) (snd r2)).
    exists (MergeIfLastTwoAssistant (snd (fst r3))), (snd r3).
    split; [| split; reflexivity].
    apply (proj1 (SendUntilDone_continuation mockSend)
             "Tell me a story." storyConversation storyTransport
             (fst (fst r1)) (snd (fst r1)) (snd r1)
             (fst (fst r2)) (snd (fst r2)) (snd r2)
             (fst (fst r3)) (snd (fst r3)) (snd r3) 3);
      try reflexivity;
      try (intros Hstop; vm_compute in Hstop; discriminate Hstop); lia.
  - pose (r1 := mockSend "Tell me a story." storyConversation
                  failingTransport).
    pose (r2 := mockSend EmptyString
                  (MergeIfLastTwoAssistant (snd (fst r1))) (snd r1)).
    exists (snd (fst r2)), (snd r2).
    split; [| split; reflexivity].
    apply (proj2 (SendUntilDone_continuation mockSend)
             "Tell me a story." storyConversation failingTransport
             [fst (fst r1)] EmptyString
             (MergeIfLastTwoAssistant (snd (fst r1))) (snd r1)
             (fst (fst r2)) (snd (fst r2)) (snd r2)
             (ErrAPIStatus 500 "overloaded") 2);
      try reflexivity; try (simpl; lia).
    eapply run_more; [reflexivity | reflexivity | reflexivity |].
    apply run_done.
Defined.

(** C6, as stated, fails for the missing credential: the call returns
    before the user turn is appended, so the text does not remain in the
    history. *)
Lemma Send_missing_credential_counterexample :
  err (fst (fst (mockSend "Hello" noTokenConversation helpfulTransport)))
  = Some ErrNoToken
  /\ Messages (snd (fst (mockSend "Hello" noTokenConversation
                           helpfulTransport)))
     = []
  /\ calls (snd (mockSend "Hello" noTokenConversation helpfulTransport))
     = 0%nat
  /\ (Messages (snd (fst (mockSend "Hello" noTokenConversation
                            helpfulTransport)))
      = Messages noTokenConversation
        ++ [ {| Role := "user"; Content := "Hello" |} ] -> False).
Proof.
  repeat split. intros Heq. vm_compute in Heq. discriminate Heq.
Qed.

Lemma Send_history_and_usage_witness :
  (Messages (snd (fst (mockSend "Hello" storyConversation
                         overloadedTransport)))
   = [ {| Role := "user"; Content := "Hello" |} ]
   /\ ConvUsage (snd (fst (mockSend "Hello" storyConversation
                             overloadedTransport)))
      = {| InputTokens := 0; OutputTokens := 0 |})
  /\ (Messages (snd (fst (mockSend "Hello" storyConversation
                            helpfulTransport)))
      = [ {| Role := "user"; Content := "Hello" |};
          {| Role := "assistant";
             Content := " Hello! How can I help you?" |} ]
      /\ ConvUsage (snd (fst (mockSend "Hello" storyConversation
                                helpfulTransport)))
         = {| InputTokens := 10; OutputTokens := 8 |}).
Proof.
  split.
  - exact (Send_history_and_usage (H := MiniJson.decoder)
             "Hello" noSampling storyConversation overloadedTransport
             (out := fst (fst (mockSend "Hello" storyConversation
                                 overloadedTransport)))
             (c' := snd (fst (mockSend "Hello" storyConversation
                                overloadedTransport)))
             (w' := snd (mockSend "Hello" storyConversation
                           overloadedTransport))
             eq_refl).
  - exact (Send_history_and_usage (H := MiniJson.decoder)
             "Hello" noSampling storyConversation helpfulTransport
             (out := fst (fst (mockSend "Hello" storyConversation
                                 helpfulTransport)))
             (c' := snd (fst (mockSend "Hello" storyConversation
                                helpfulTransport)))
             (w' := snd (mockSend "Hello" storyConversation
                           helpfulTransport))
             eq_refl).
Defined.

(** ** The stream decoder *)

Section StreamProperties.

Context `{Json}.

Lemma CutPrefix_app (s p rest : string) :
  CutPrefix s p = Some rest -> s = (p ++ rest)%string.
Proof.
  revert s. induction p as [| a p IH]; intros s; simpl.
  - now intros [= ->].
  - destruct s as [| b s]; [discriminate |].
    destruct (Ascii.eqb_spec a b) as [-> | _]; [| discriminate].
    intros Hcut. now rewrite (IH _ Hcut).
Qed.

Lemma sseLine_skipped (callback : bool) (line : string) (st : SSEState) :
  skipped line -> sseLine callback line st = Continue st.
Proof.
  unfold skipped, sseLine.
  intros [-> | (-> & Hdone & Hchunk)]; [reflexivity |]. simpl.
  apply String.eqb_neq in Hdone. rewrite Hdone.
  destruct Hchunk as [-> | (chunk & -> & ->)]; reflexivity.
Qed.

Lemma sseLine_break (callback : bool) (line : string) (st st' : SSEState) :
  sseLine callback line st = Break st' -> line = "data: [DONE]".
Proof.
  unfold sseLine, HasPrefix, TrimPrefix.
  destruct (CutPrefix line "data: ") as [data |] eqn:Hcut; simpl;
    [| discriminate].
  destruct (String.eqb_spec data "[DONE]") as [-> | _].
  - intros _. now apply CutPrefix_app in Hcut.
  - destruct (unmarshalChunk data) as [chunk |]; [| discriminate].
    destruct (ChunkChoices chunk) as [| choice rest]; [discriminate |].
    destruct (ChunkFinishReason choice) as [r |]; [| discriminate].
    destruct (negb (r =? EmptyString)); discriminate.
Qed.

Lemma sseLine_finishes (callback : bool) (line r : string) (st : SSEState) :
  finishes line r -> r <> EmptyString ->
  exists st', sseLine callback line st = Continue st'
              /\ sseStopReason st' = r.
Proof.
  unfold finishes, sseLine.
  intros (-> & Hdone & chunk & choice & rest & -> & -> & ->) Hr. simpl.
  apply String.eqb_neq in Hdone, Hr. rewrite Hdone, Hr. simpl.
  eexists. split; reflexivity.
Qed.

Lemma sseLoop_skip (callback : bool) (pre : list ScanLine) (l : ScanLine)
    (post : list ScanLine) (atEnd : option string) :
  skipped (lineText l) ->
  forall st : SSEState,
    sseLoop callback (pre ++ l :: post) atEnd st
    = sseLoop callback (pre ++ post) atEnd st.
Proof.
  intros Hskip. induction pre as [| x pre IH]; intros st; simpl.
  - now rewrite sseLine_skipped.
  - destruct (sseLine callback (lineText x) st); [apply IH | reflexivity].
Qed.

Lemma sseLoop_no_break (callback : bool) (pre post : list ScanLine)
    (atEnd : option string) :
  Forall (fun l => lineText l <> "data: [DONE]") pre ->
  forall st : SSEState,
    exists st', sseLoop callback (pre ++ post) atEnd st
                = sseLoop callback post atEnd st'.
Proof.
  induction 1 as [| x pre Hx Hpre IH]; intros st; simpl.
  - now exists st.
  - destruct (sseLine callback (lineText x) st) as [st1 | st1] eqn:Hline.
    + apply IH.
    + apply sseLine_break in Hline. contradiction.
Qed.

(** A data line whose chunk holds one choice with a text that is not
    empty: the text is appended and handed to the callback, and a finish
    reason that is not empty is recorded. *)
Lemma sseLine_text (callback : bool) (st : SSEState)
    (payload text : string) (finish : option string) :
  unmarshalChunk payload = Some (textChunk text finish) ->
  payload <> "[DONE]" -> text <> EmptyString ->
  sseLine callback ("data: " ++ payload)%string st
  = Continue
      {| accumulated := (accumulated st ++ text)%string;
         sseStopReason :=
           match finish with
           | Some r => if r =? EmptyString then sseStopReason st else r
           | None => sseStopReason st
           end;
         callbackCalls :=
           if callback then callbackCalls st ++ [(text, false)]
           else callbackCalls st |}.
Proof.
  intros Hchunk Hdone Htext. unfold sseLine.
  change (HasPrefix ("data: " ++ payload)%string "data: ") with true.
  change (TrimPrefix ("data: " ++ payload)%string "data: ") with payload.
  apply String.eqb_neq in Hdone, Htext.
  cbn [negb]. rewrite Hdone, Hchunk. cbn [textChunk ChunkChoices ChunkText
                                           ChunkFinishReason].
  rewrite Htext. cbn [negb].
  destruct finish as [r |]; [| reflexivity].
  now destruct (r =? EmptyString).
Qed.

(** C5: the stream of the two data lines and the sentinel decodes to the
    text Hello and the stop reason stop, and the callback receives the two
    increments and then the empty increment with done set; nothing after
    the sentinel is read.  On every stream a line without the data prefix,
    a payload that does not decode and a chunk without choices change
    nothing, wherever they stand; and a finish reason that is not empty
    replaces the one recorded before it. *)
Theorem parseSSEStream_decodes :
  (unmarshalChunk helPayload = Some (textChunk "Hel" None) ->
   unmarshalChunk loPayload = Some (textChunk "lo" (Some "stop")) ->
   forall (rest : list ScanLine) (body : Body),
     scanLines body
     = scanLines (sseBody [ ("data: " ++ helPayload)%string;
                            ("data: " ++ loPayload)%string;
                            "data: [DONE]" ]) ++ rest ->
     parseSSEStream body true
     = ("Hello", "stop", None,
        [("Hel", false); ("lo", false); (EmptyString, true)]))
  /\ (forall (callback : bool) (body : Body) (pre : list ScanLine)
             (l : ScanLine) (post : list ScanLine),
        skipped (lineText l) ->
        parseSSEStream (withLines body (pre ++ l :: post)) callback
        = parseSSEStream (withLines body (pre ++ post)) callback)
  /\ (forall (callback : bool) (body : Body) (pre : list ScanLine)
             (l : ScanLine) (r : string),
        Forall (fun l' => lineText l' <> "data: [DONE]") pre ->
        finishes (lineText l) r -> r <> EmptyString ->
        snd (fst (fst (parseSSEStream (withLines body (pre ++ [l]))
                         callback)))
        = r).
Proof.
  split; [| split].
  - intros Hhel Hlo rest body Hlines. unfold parseSSEStream.
    rewrite Hlines. cbn [sseBody scanLines map app sseLoop lineText].
    rewrite (sseLine_text true _ (finish := None) Hhel)
      by discriminate.
    rewrite (sseLine_text true _ (finish := Some "stop") Hlo)
      by discriminate.
    reflexivity.
  - intros callback body pre l post Hskip. unfold parseSSEStream. simpl.
    now rewrite sseLoop_skip.
  - intros callback body pre l r Hpre Hfin Hr. unfold parseSSEStream.
    cbn [withLines scanLines scanErr].
    destruct (sseLoop_no_break callback [l] (scanErr body) Hpre startState)
      as [st' Hst]. fold startState. rewrite Hst. simpl.
    destruct (sseLine_finishes callback st' Hfin Hr) as (st2 & -> & Hst2).
    now destruct (scanErr body).
Qed.

End StreamProperties.

Lemma parseSSEStream_decodes_witness :
  parseSSEStream (H := MiniJson.decoder)
    (sseBody [ ("data: " ++ helPayload)%string;
               ("data: " ++ loPayload)%string; "data: [DONE]" ]) true
  = ("Hello", "stop", None,
     [("Hel", false); ("lo", false); (EmptyString, true)])
  /\ (parseSSEStream (H := MiniJson.decoder)
        (withLines (sseBody [])
           [dataLine helPayload; keepAliveLine; dataLine loPayload]) true
      = parseSSEStream (H := MiniJson.decoder)
          (withLines (sseBody [])
             [dataLine helPayload; dataLine loPayload]) true
      /\ parseSSEStream (H := MiniJson.decoder)
           (withLines (sseBody [])
              [dataLine helPayload; brokenLine; dataLine loPayload]) true
         = parseSSEStream (H := MiniJson.decoder)
             (withLines (sseBody [])
                [dataLine helPayload; dataLine loPayload]) true
      /\ parseSSEStream (H := MiniJson.decoder)
           (withLines (sseBody [])
              [dataLine helPayload; emptyChunkLine; dataLine loPayload]) true
         = parseSSEStream (H := MiniJson.decoder)
             (withLines (sseBody [])
                [dataLine helPayload; dataLine loPayload]) true)
  /\ snd (fst (fst (parseSSEStream (H := MiniJson.decoder)
                      (withLines (sseBody [])
                         [dataLine lengthPayload; dataLine loPayload])
                      false)))
     = "stop".
Proof.
  split; [| split; [split; [| split] |]].
  - apply (proj1 (parseSSEStream_decodes (H := MiniJson.decoder))
             eq_refl eq_refl [] _ (eq_sym (app_nil_r _))).
  - apply (proj1 (proj2 (parseSSEStream_decodes (H := MiniJson.decoder)))
             true (sseBody []) [dataLine helPayload] keepAliveLine
             [dataLine loPayload]).
    left. reflexivity.
  - apply (proj1 (proj2 (parseSSEStream_decodes (H := MiniJson.decoder)))
             true (sseBody []) [dataLine helPayload] brokenLine
             [dataLine loPayload]).
    right. split; [reflexivity | split; [discriminate | left; reflexivity]].
  - apply (proj1 (proj2 (parseSSEStream_decodes (H := MiniJson.decoder)))
             true (sseBody []) [dataLine helPayload] emptyChunkLine
             [dataLine loPayload]).
    right. split; [reflexivity | split; [discriminate | right]].
    eexists. split; reflexivity.
  - apply (proj2 (proj2 (parseSSEStream_decodes (H := MiniJson.decoder)))
             false (sseBody []) [dataLine lengthPayload]
             (dataLine loPayload) "stop").
    + constructor; [discriminate | constructor].
    + split; [reflexivity | split; [discriminate |]].
      do 3 eexists. split; [reflexivity | split; reflexivity].
    + discriminate.
Defined.

(** ** Streaming send *)

Lemma estimate_eq (r : string) :
  (if (Z.quot (len r) 4 =? 0)%Z && (len r >? 0)%Z
   then 1%Z else Z.quot (len r) 4)
  = estimatedTokens r.
Proof.
  unfold estimatedTokens, len.
  set (n := Z.of_nat (String.length r)).
  assert (Hn : (0 <= n)%Z) by (subst n; lia).
  rewrite Z.quot_div_nonneg by lia.
  destruct (Z.eqb_spec n 0) as [-> | Hn0].
  - reflexivity.
  - assert (Hq : (0 <= n / 4)%Z) by (apply Z.div_pos; lia).
    destruct (Z.eqb_spec (n / 4) 0) as [Hz | Hz]; simpl.
    + rewrite Hz. replace (n >? 0)%Z with true by (symmetry; lia).
      reflexivity.
    + lia.
Qed.

Section StreamingSendProperties.

Context `{Json}.

(** C9 (amended): a streaming send that succeeds returns the estimate as
    its output-token count and zero as its input-token count, and adds the
    estimate to the cumulative output count, whatever the chunks of the
    stream carried: the usage a provider reports in a chunk is never read. *)
Theorem SendStreaming_output_tokens (text : string) (callback : bool)
    (c : Conversation) (w : Transport * list (string * bool))
    (out : SendOut) (c' : Conversation)
    (w' : Transport * list (string * bool)) :
  SendStreaming text callback c w = (out, c', w') ->
  err out = None ->
  outputTokens out = estimatedTokens (reply out)
  /\ inputTokens out = 0%Z
  /\ ConvUsage c'
     = {| InputTokens := InputTokens (ConvUsage c);
          OutputTokens :=
            int_add (OutputTokens (ConvUsage c))
              (estimatedTokens (reply out)) |}.
Proof.
  unfold SendStreaming. destruct w as [tr log].
  destruct (ApiToken c =? EmptyString); [intros [= <- <- <-]; discriminate |].
  destruct (addUserTurn text c) as [c1 |] eqn:Hadd;
    [| intros [= <- <- <-]; discriminate].
  apply addUserTurn_messages in Hadd as [_ Hus].
  match goal with
  | |- context [marshalOk ?r] => destruct (marshalOk r)
  end; cbn [negb]; [| intros [= <- <- <-]; discriminate].
  match goal with
  | |- context [doWithRetries ?n ?r ?t] =>
      destruct (doWithRetries n r t) as [[cause | status body] tr1]
  end; [intros [= <- <- <-]; discriminate |].
  destruct (negb (status =? StatusOK)%Z);
    [intros [= <- <- <-]; discriminate |].
  destruct (parseSSEStream body callback) as [[[r sr] perr] cbs].
  destruct perr; [intros [= <- <- <-]; discriminate |].
  intros [= <- <- <-] _. simpl. rewrite estimate_eq, Hus. auto.
Qed.

End StreamingSendProperties.

(** C9, as stated, fails: the provider reports seven completion tokens in
    the stream, and the call still returns the estimate, one token for the
    five bytes of the reply. *)
Lemma SendStreaming_ignores_usage_counterexample :
  option_map ChunkUsage (unmarshalChunk (Json := MiniJson.decoder) usagePayload)
  = Some (Some {| PromptTokens := 12; CompletionTokens := 7;
                  TotalTokens := 19 |})
  /\ fst (fst (mockSendStreaming "Hi" storyConversation (usageTransport, [])))
     = {| reply := "Hello"; stopReason := "end_turn"; inputTokens := 0;
          outputTokens := 1; err := None |}
  /\ (outputTokens
        (fst (fst (mockSendStreaming "Hi" storyConversation
                     (usageTransport, []))))
      = 7%Z -> False).
Proof.
  split; [reflexivity | split; [reflexivity |]].
  intros Heq. vm_compute in Heq. discriminate Heq.
Qed.

Lemma SendStreaming_output_tokens_witness :
  outputTokens
    (fst (fst (mockSendStreaming "Hi" storyConversation (usageTransport, []))))
  = 1%Z
  /\ inputTokens
       (fst (fst (mockSendStreaming "Hi" storyConversation
                    (usageTransport, []))))
     = 0%Z
  /\ ConvUsage
       (snd (fst (mockSendStreaming "Hi" storyConversation
                    (usageTransport, []))))
     = {| InputTokens := 0; OutputTokens := 1 |}.
Proof.
  exact (SendStreaming_output_tokens (H := MiniJson.decoder)
           "Hi" true storyConversation (usageTransport, [])
           (out := fst (fst (mockSendStreaming "Hi" storyConversation
                               (usageTransport, []))))
           (c' := snd (fst (mockSendStreaming "Hi" storyConversation
                              (usageTransport, []))))
           (w' := snd (mockSendStreaming "Hi" storyConversation
                         (usageTransport, [])))
           eq_refl eq_refl).
Defined.

(* ===================================================================== *)
(** * Further properties of the package                                   *)
(* ===================================================================== *)

(** ** The prompt and the thinking switch *)

Lemma indexedFrom_app (a b : list Message) :
  forall i : Z,
    indexedFrom i (a ++ b)
    = indexedFrom i a ++ indexedFrom (i + Z.of_nat (length a)) b.
Proof.
  induction a as [| x a IH]; intros i; simpl.
  - now rewrite Z.add_0_r.
  - rewrite IH. do 3 f_equal. lia.
Qed.

(** Before the last index the thinking switch changes no block. *)
Lemma blocks_before_last (n : Z) (ms : list Message) :
  forall i : Z,
    (i + Z.of_nat (length ms) <= n - 1)%Z ->
    map (block false n)
      (filter (fun im => knownRole (Role (snd im))) (indexedFrom i ms))
    = map (block true n)
        (filter (fun im => knownRole (Role (snd im))) (indexedFrom i ms)).
Proof.
  induction ms as [| m ms IH]; intros i Hi; simpl; [reflexivity |].
  simpl in Hi.
  destruct (knownRole (Role m)); simpl.
  - rewrite IH by lia. f_equal. unfold block.
    replace (i =? n - 1)%Z with false by (symmetry; apply Z.eqb_neq; lia).
    now rewrite andb_false_r.
  - apply IH. lia.
Qed.

Lemma joinAll_app (a b : list string) :
  joinAll (a ++ b) = (joinAll a ++ joinAll b)%string.
Proof.
  induction a as [| x a IH]; simpl; [reflexivity |].
  unfold joinAll in *. simpl. now rewrite IH, sapp_assoc.
Qed.

(** The blocks of a history split at its last message. *)
Lemma blocks_snoc (thinking : bool) (pre : list Message) (m : Message) :
  joinAll
    (map (block thinking (Z.of_nat (length (pre ++ [m]))))
       (filter (fun im => knownRole (Role (snd im)))
          (indexedFrom 0 (pre ++ [m]))))
  = (joinAll
       (map (block true (Z.of_nat (length (pre ++ [m]))))
          (filter (fun im => knownRole (Role (snd im)))
             (indexedFrom 0 pre)))
     ++ (if knownRole (Role m)
         then block thinking (Z.of_nat (length (pre ++ [m])))
                (Z.of_nat (length pre), m)
         else EmptyString))%string.
Proof.
  rewrite indexedFrom_app, filter_app, map_app, joinAll_app. simpl.
  assert (Hlen : (0 + Z.of_nat (length pre)
                  <= Z.of_nat (length (pre ++ [m])) - 1)%Z).
  { rewrite length_app. simpl. lia. }
  f_equal.
  - destruct thinking; [reflexivity |].
    now rewrite (@blocks_before_last _ pre 0 Hlen).
  - destruct (knownRole (Role m)); simpl; [| reflexivity].
    unfold joinAll. simpl. now rewrite sapp_nil_r.
Qed.

Lemma buildPrompt_blocks (c : Conversation) :
  buildPrompt c
  = (promptHead c
     ++ joinAll
          (map (block (Thinking (ConvSettings c))
                  (Z.of_nat (length (Messages c))))
             (filter (fun im => knownRole (Role (snd im)))
                (indexedFrom 0 (Messages c))))
     ++ promptTail c)%string.
Proof.
  unfold buildPrompt, promptHead, promptTail.
  rewrite writeMessages_blocks.
  destruct (System c =? EmptyString), (Thinking (ConvSettings c)); simpl;
    now rewrite ?sapp_assoc, ?sapp_nil_r.
Qed.

(** X1: with thinking off, a history that is empty or does not close with a
    user turn (a continuation after an assistant turn, say) is rendered
    without the /nothink suffix: the prompt is that of the same
    conversation with thinking on, followed by the prefilled empty think
    block. *)
Theorem buildPrompt_suffix_needs_closing_user_turn (c : Conversation) :
  Thinking (ConvSettings c) = false ->
  (forall pre m, Messages c = pre ++ [m] -> Role m <> "user") ->
  buildPrompt c
  = (buildPrompt (withThinking c) ++ "<think></think>" ++ lf)%string.
Proof.
  intros Hoff Hlast. rewrite !buildPrompt_blocks.
  unfold promptTail, promptHead. simpl. rewrite Hoff.
  rewrite !sapp_assoc. do 2 f_equal.
  destruct (Messages c) as [| x ms] eqn:Hms; [reflexivity |].
  destruct (exists_last (l := x :: ms)) as [pre [m Hsplit]];
    [discriminate |].
  rewrite Hsplit in *. specialize (Hlast pre m eq_refl).
  rewrite !blocks_snoc. f_equal.
  destruct (knownRole (Role m)); [| reflexivity].
  unfold block. apply String.eqb_neq in Hlast. now rewrite Hlast.
Qed.

Lemma buildPrompt_suffix_needs_closing_user_turn_witness :
  buildPrompt (AddMessage "assistant" "Once upon" helloConversation)
  = (buildPrompt
       (withThinking (AddMessage "assistant" "Once upon" helloConversation))
     ++ "<think></think>" ++ lf)%string.
Proof.
  apply buildPrompt_suffix_needs_closing_user_turn; [reflexivity |].
  intros pre m Hms.
  change (Messages (AddMessage "assistant" "Once upon" helloConversation))
    with ([ {| Role := "user"; Content := "Hello" |} ]
          ++ [ {| Role := "assistant"; Content := "Once upon" |} ]) in Hms.
  apply app_inj_tail in Hms as [_ <-]. discriminate.
Defined.

(** X2: with thinking off, a history that closes with a user turn is rendered
    as if /nothink were the end of that turn's content: the prompt is the
    prompt, with thinking on, of the history with the suffix appended to
    the last content, followed by the prefilled empty think block.  The
    stored message itself is not changed. *)
Theorem buildPrompt_suffix_on_closing_user_turn (c : Conversation)
    (pre : list Message) (m : Message) :
  Thinking (ConvSettings c) = false ->
  Messages c = pre ++ [m] -> Role m = "user" ->
  buildPrompt c
  = (buildPrompt
       (withThinking
          (setMessages c
             (pre ++ [ {| Role := "user";
                          Content := (Content m ++ glmNoThink)%string |} ])))
     ++ "<think></think>" ++ lf)%string.
Proof.
  intros Hoff Hms Huser. rewrite !buildPrompt_blocks.
  unfold promptTail, promptHead. simpl. rewrite Hoff, Hms.
  rewrite !sapp_assoc. do 2 f_equal.
  rewrite !blocks_snoc. rewrite !length_app. simpl. f_equal.
  unfold knownRole, block. cbn [Role Content]. rewrite Huser.
  match goal with
  | |- context [(?a =? ?b)%Z] =>
      replace (a =? b)%Z with true by (symmetry; apply Z.eqb_eq; lia)
  end.
  simpl. now rewrite ?sapp_assoc, ?sapp_nil_r.
Qed.

Lemma buildPrompt_suffix_on_closing_user_turn_witness :
  buildPrompt helloConversation
  = (buildPrompt
       (withThinking
          (setMessages helloConversation
             ([] ++ [ {| Role := "user";
                         Content := ("Hello" ++ glmNoThink)%string |} ])))
     ++ "<think></think>" ++ lf)%string.
Proof.
  exact (buildPrompt_suffix_on_closing_user_turn helloConversation []
           {| Role := "user"; Content := "Hello" |}
           eq_refl eq_refl eq_refl).
Defined.

(** ** Stop reasons and the continuation test *)

(** X3: normalizing twice is normalizing once: no normalized name is itself
    a provider name of the table. *)
Theorem normalizeStopReason_idempotent (reason : string) :
  normalizeStopReason (normalizeStopReason reason)
  = normalizeStopReason reason.
Proof.
  destruct (String.eqb_spec reason "stop") as [-> | Hstop];
    [reflexivity |].
  destruct (String.eqb_spec reason "length") as [-> | Hlen];
    [reflexivity |].
  destruct (String.eqb_spec reason "tool_calls") as [-> | Htool];
    [reflexivity |].
  assert (Hsame : normalizeStopReason reason = reason).
  { unfold normalizeStopReason.
    apply String.eqb_neq in Hstop, Hlen, Htool.
    now rewrite Hstop, Hlen, Htool. }
  now rewrite !Hsame.
Qed.

(** X4: the continuation loops go on exactly on the provider's finish reason
    length, and on a finish reason that already reads max_tokens. *)
Theorem normalizeStopReason_max_tokens (reason : string) :
  normalizeStopReason reason = "max_tokens"
  <-> reason = "length" \/ reason = "max_tokens".
Proof.
  unfold normalizeStopReason. split.
  - destruct (String.eqb_spec reason "stop"); [discriminate |].
    destruct (String.eqb_spec reason "length"); [auto |].
    destruct (String.eqb_spec reason "tool_calls"); [discriminate | auto].
  - intros [-> | ->]; reflexivity.
Qed.

(** ** Send and the network *)

(** The retry loop sends the same request every time, once at least and
    once more for each retry at most. *)
Lemma doWithRetries_requests (req : completionRequest) :
  forall (left : nat) (w : Transport) (r : HttpResult) (w' : Transport),
    doWithRetries left req w = (r, w') ->
    exists k : nat,
      (1 <= k <= S left)%nat /\ requests w' = requests w ++ repeat req k.
Proof.
  induction left as [| left IH]; intros w r w'; simpl.
  - destruct (Do req w) as [r0 w0] eqn:Hdo.
    assert (Hreq : requests w0 = requests w ++ [req]).
    { unfold Do in Hdo. destruct (outcomes w); now injection Hdo as _ <-. }
    intros Heq. exists 1%nat. split; [lia |].
    destruct r0; injection Heq as _ <-; exact Hreq.
  - destruct (Do req w) as [r0 w0] eqn:Hdo.
    assert (Hreq : requests w0 = requests w ++ [req]).
    { unfold Do in Hdo. destruct (outcomes w); now injection Hdo as _ <-. }
    destruct r0 as [cause | status body].
    + intros Heq. apply IH in Heq as (k & Hk & Hrs).
      exists (S k). split; [lia |].
      rewrite Hrs, Hreq, <- app_assoc. reflexivity.
    + intros [= _ <-]. exists 1%nat. split; [lia | exact Hreq].
Qed.

(** Transport errors followed by a response within the retry budget: the
    loop returns the response, after one request per outcome used. *)
Lemma doWithRetries_recovers (req : completionRequest) (status : Z)
    (body : Body) (rest : list HttpResult) :
  forall (causes : list string) (left : nat) (sent : list completionRequest),
    (length causes <= left)%nat ->
    doWithRetries left req
      {| outcomes := map DoError causes ++ DoResponse status body :: rest;
         requests := sent |}
    = (DoResponse status body,
       {| outcomes := rest;
          requests := sent ++ repeat req (S (length causes)) |}).
Proof.
  induction causes as [| cause causes IH]; intros left sent Hlen.
  - destruct left; reflexivity.
  - destruct left as [| left]; [simpl in Hlen; lia |].
    cbn [map app doWithRetries Do outcomes requests].
    rewrite IH by (simpl in Hlen; lia).
    cbn [length repeat]. now rewrite <- app_assoc.
Qed.

Section SendNetworkProperties.
Context `{Json}.

(** A call that reaches the network is the retry loop on the request of
    the conversation, followed by the handling of its outcome. *)
Lemma Send_on_network (text : string) (sampling : Sampling)
    (c c1 : Conversation) (w : Transport) :
  reachesNetwork text sampling c c1 ->
  Send text sampling c w
  = afterRetries c1 (doWithRetries retries (sendRequest sampling c1) w).
Proof.
  intros (Htok & Hadd & Hok). unfold Send.
  apply String.eqb_neq in Htok. rewrite Htok, Hadd. cbv zeta.
  fold (sendRequest sampling c1). rewrite Hok. cbn [negb].
  unfold afterRetries.
  destruct (doWithRetries retries (sendRequest sampling c1) w)
    as [[cause | status body] w1]; reflexivity.
Qed.

(** A call that does not reach the network fails with one of the three
    configuration errors and leaves the transport as it was. *)
Lemma Send_off_network (text : string) (sampling : Sampling)
    (c : Conversation) (w : Transport) :
  (forall c1, ~ reachesNetwork text sampling c c1) ->
  configurationError (err (fst (fst (Send text sampling c w))))
  /\ snd (Send text sampling c w) = w.
Proof.
  intros Hno. unfold Send, configurationError.
  destruct (String.eqb_spec (ApiToken c) EmptyString) as [Htok | Htok];
    [simpl; auto |].
  destruct (addUserTurn text c) as [c1 |] eqn:Hadd; [| simpl; auto].
  cbv zeta. fold (sendRequest sampling c1).
  destruct (marshalOk (sendRequest sampling c1)) eqn:Hok; [| simpl; auto].
  exfalso. apply (Hno c1). repeat split; assumption.
Qed.

Lemma afterRetries_no_configuration_error (c : Conversation)
    (r : HttpResult * Transport) :
  ~ configurationError (err (fst (fst (afterRetries c r)))).
Proof.
  unfold afterRetries, configurationError. destruct r as [resp w].
  destruct resp as [cause | status body]; simpl.
  { intros [Hc | [Hc | Hc]]; discriminate. }
  destruct (bodyErr body); simpl;
    [intros [Hc | [Hc | Hc]]; discriminate |].
  destruct (negb (status =? StatusOK)%Z); simpl;
    [intros [Hc | [Hc | Hc]]; discriminate |].
  destruct (unmarshalResponse (bodyData body)) as [resp |]; simpl;
    [| intros [Hc | [Hc | Hc]]; discriminate].
  destruct (Choices resp); simpl; intros [Hc | [Hc | Hc]]; discriminate.
Qed.

Lemma afterRetries_result (c : Conversation) (resp : HttpResult)
    (w w' : Transport) :
  fst (afterRetries c (resp, w)) = fst (afterRetries c (resp, w')).
Proof.
  unfold afterRetries. destruct resp as [cause | status body];
    [reflexivity |].
  destruct (bodyErr body); [reflexivity |].
  destruct (negb (status =? StatusOK)%Z); [reflexivity |].
  destruct (unmarshalResponse (bodyData body)) as [r |]; [| reflexivity].
  now destruct (Choices r).
Qed.

Lemma afterRetries_transport (c : Conversation) (resp : HttpResult)
    (w : Transport) :
  snd (afterRetries c (resp, w)) = w.
Proof.
  unfold afterRetries. destruct resp as [cause | status body];
    [reflexivity |].
  destruct (bodyErr body); [reflexivity |].
  destruct (negb (status =? StatusOK)%Z); [reflexivity |].
  destruct (unmarshalResponse (bodyData body)) as [r |]; [| reflexivity].
  now destruct (Choices r).
Qed.

(** X5: every call of [Send] sends at most four requests, all of them the
    same: the non-streaming request whose prompt is the prompt of the
    history with the new user turn in it.  It sends none exactly when it
    fails for the credential, for an empty history or for sampling
    parameters that cannot be encoded. *)
Theorem Send_requests (text : string) (sampling : Sampling)
    (c : Conversation) (w : Transport) :
  exists (k : nat) (req : completionRequest),
    (k <= S retries)%nat
    /\ requests (snd (Send text sampling c w)) = requests w ++ repeat req k
    /\ ReqPrompt req
       = buildPrompt (setMessages c (Messages c ++ keptUserTurn c text))
    /\ ReqStream req = false
    /\ (k = 0%nat
        <-> configurationError (err (fst (fst (Send text sampling c w))))).
Proof.
  destruct (String.eqb_spec (ApiToken c) EmptyString) as [Htok | Htok].
  { exists 0%nat,
      (sendRequest sampling
         (setMessages c (Messages c ++ keptUserTurn c text))).
    unfold Send, configurationError. rewrite Htok. simpl.
    rewrite app_nil_r. repeat split; auto. lia. }
  destruct (addUserTurn text c) as [c1 |] eqn:Hadd.
  2:{ exists 0%nat,
        (sendRequest sampling
           (setMessages c (Messages c ++ keptUserTurn c text))).
      unfold Send, configurationError.
      apply String.eqb_neq in Htok. rewrite Htok, Hadd. simpl.
      rewrite app_nil_r. repeat split; auto. lia. }
  assert (Hprompt : buildPrompt c1
                    = buildPrompt
                        (setMessages c (Messages c ++ keptUserTurn c text))).
  { unfold keptUserTurn, addUserTurn in *.
    apply String.eqb_neq in Htok. rewrite Htok. cbn [orb].
    destruct (text =? EmptyString); cbn [negb] in Hadd.
    - destruct (length (Messages c) =? 0)%nat; [discriminate |].
      injection Hadd as <-. rewrite app_nil_r. reflexivity.
    - injection Hadd as <-. reflexivity. }
  destruct (marshalOk (sendRequest sampling c1)) eqn:Hok.
  - rewrite (Send_on_network (c1 := c1) w)
      by (repeat split; assumption).
    destruct (doWithRetries retries (sendRequest sampling c1) w)
      as [resp w1] eqn:Hdo.
    apply doWithRetries_requests in Hdo as (k & Hk & Hrs).
    exists k, (sendRequest sampling c1).
    rewrite afterRetries_transport.
    repeat split; auto; try lia.
    intros Hcfg. exfalso.
    exact (afterRetries_no_configuration_error _ _ Hcfg).
  - exists 0%nat, (sendRequest sampling c1).
    unfold Send, configurationError.
    apply String.eqb_neq in Htok. rewrite Htok, Hadd. cbv zeta.
    fold (sendRequest sampling c1). rewrite Hok. simpl.
    rewrite app_nil_r. repeat split; auto. lia.
Qed.

(** X6: transport errors that a response follows within the three retries
    change nothing but the number of requests: the call returns what it
    returns when the response comes first, and leaves the conversation in
    the same state. *)
Theorem Send_retries_are_transparent (text : string) (sampling : Sampling)
    (c c1 : Conversation) (causes : list string) (status : Z) (body : Body)
    (rest : list HttpResult) (sent : list completionRequest) :
  reachesNetwork text sampling c c1 ->
  (length causes <= retries)%nat ->
  fst (Send text sampling c
         {| outcomes := map DoError causes ++ DoResponse status body :: rest;
            requests := sent |})
  = fst (Send text sampling c
           {| outcomes := DoResponse status body :: rest;
              requests := sent |})
  /\ calls (snd (Send text sampling c
                   {| outcomes :=
                        map DoError causes ++ DoResponse status body :: rest;
                      requests := sent |}))
     = (length sent + S (length causes))%nat
  /\ outcomes (snd (Send text sampling c
                      {| outcomes :=
                           map DoError causes
                           ++ DoResponse status body :: rest;
                         requests := sent |}))
     = rest.
Proof.
  intros Hnet Hlen.
  rewrite !(Send_on_network _ Hnet).
  rewrite (doWithRetries_recovers _ _ _ rest causes sent Hlen).
  rewrite (doWithRetries_response (sendRequest sampling c1)
             {| outcomes := DoResponse status body :: rest;
                requests := sent |} eq_refl).
  rewrite !afterRetries_transport. unfold calls. cbn [requests outcomes].
  rewrite length_app, repeat_length.
  split; [apply afterRetries_result | auto].
Qed.

(** X7: a response with a status other than 200 is not retried: the call
    fails with the status and the body after a single request, and the
    outcomes that follow stay unused. *)
Theorem Send_status_error_not_retried (text : string) (sampling : Sampling)
    (c c1 : Conversation) (status : Z) (body : Body)
    (rest : list HttpResult) (sent : list completionRequest) :
  reachesNetwork text sampling c c1 ->
  bodyErr body = None -> status <> StatusOK ->
  Send text sampling c
    {| outcomes := DoResponse status body :: rest; requests := sent |}
  = (failed (ErrAPIStatus status (bodyData body)), c1,
     {| outcomes := rest;
        requests := sent ++ [sendRequest sampling c1] |}).
Proof.
  intros Hnet Hbody Hstatus. rewrite (Send_on_network _ Hnet).
  rewrite (doWithRetries_response (sendRequest sampling c1)
             {| outcomes := DoResponse status body :: rest;
                requests := sent |} eq_refl).
  cbn [requests].
  unfold afterRetries. rewrite Hbody.
  apply Z.eqb_neq in Hstatus. now rewrite Hstatus.
Qed.

(** X8: four transport errors in a row end the call: it fails with the
    last of them after four requests, does not touch a fifth outcome, and
    keeps the user turn in the history. *)
Theorem Send_gives_up_after_retries (text : string) (sampling : Sampling)
    (c c1 : Conversation) (e1 e2 e3 e4 : string)
    (rest : list HttpResult) (sent : list completionRequest) :
  reachesNetwork text sampling c c1 ->
  Send text sampling c
    {| outcomes :=
         DoError e1 :: DoError e2 :: DoError e3 :: DoError e4 :: rest;
       requests := sent |}
  = (failed (ErrHTTP 3 e4), c1,
     {| outcomes := rest;
        requests := sent ++ repeat (sendRequest sampling c1) 4 |}).
Proof.
  intros Hnet. rewrite (Send_on_network _ Hnet).
  rewrite (doWithRetries_exhausted (sendRequest sampling c1)
             {| outcomes :=
                  DoError e1 :: DoError e2 :: DoError e3 :: DoError e4 :: rest;
                requests := sent |} eq_refl).
  reflexivity.
Qed.

End SendNetworkProperties.

(** ** Cancellation *)

(** C7, on the model of the specification: a call of [Send] made with an
    already-cancelled signal returns CancellationError and sends nothing:
    the transport is as it was before the call, so a fake transport counts
    the calls it counted before, none when it was fresh.  This holds for
    every text, sampling, conversation and transport, whether or not there
    is a credential or anything to send.  The signal is what keeps the call
    from the network: with a live signal, a call that has a credential,
    something to send and sampling parameters that can be encoded makes a
    request. *)
Theorem Send_already_cancelled `{Json} (text : string) (sampling : Sampling)
    (c : Conversation) (w : Transport) :
  SpecModel.outErr
    (fst (fst (SpecModel.Send SpecModel.Cancelled text sampling c w)))
  = Some SpecModel.CancellationError
  /\ snd (SpecModel.Send SpecModel.Cancelled text sampling c w) = w
  /\ calls (snd (SpecModel.Send SpecModel.Cancelled text sampling c w))
     = calls w
  /\ (forall c1,
        reachesNetwork text sampling c c1 ->
        (calls w
         < calls (snd (SpecModel.Send SpecModel.Live text sampling c w)))%nat).
Proof.
  repeat split. intros c1 Hreach. unfold SpecModel.Send.
  rewrite (Send_on_network w Hreach).
  destruct (doWithRetries retries (sendRequest sampling c1) w)
    as [resp w1] eqn:Hdo.
  pose proof (afterRetries_transport c1 resp w1) as Hw.
  destruct (afterRetries c1 (resp, w1)) as [[out c2] w2].
  simpl in Hw. subst w2. simpl.
  apply doWithRetries_requests in Hdo as (k & Hk & Hreq).
  unfold calls. rewrite Hreq, length_app, repeat_length. lia.
Qed.

Lemma Send_already_cancelled_witness :
  SpecModel.outErr
    (fst (fst (SpecModel.Send (H := MiniJson.decoder) SpecModel.Cancelled
                 "Hello" noSampling storyConversation helpfulTransport)))
  = Some SpecModel.CancellationError
  /\ calls (snd (SpecModel.Send (H := MiniJson.decoder) SpecModel.Cancelled
                   "Hello" noSampling storyConversation helpfulTransport))
     = 0%nat
  /\ (0 < calls (snd (SpecModel.Send (H := MiniJson.decoder) SpecModel.Live
                        "Hello" noSampling storyConversation
                        helpfulTransport)))%nat.
Proof.
  destruct (Send_already_cancelled (H := MiniJson.decoder)
              "Hello" noSampling storyConversation helpfulTransport)
    as (Herr & _ & Hcalls & Hlive).
  split; [exact Herr | split; [exact Hcalls |]].
  apply (Hlive (AddMessage "user" "Hello" storyConversation)).
  repeat split. discriminate.
Defined.

Lemma hello_reaches_network :
  reachesNetwork "Hello" noSampling storyConversation
    (AddMessage "user" "Hello" storyConversation).
Proof. split; [discriminate | split; reflexivity]. Defined.

Lemma Send_retries_are_transparent_witness :
  fst (mockSend "Hello" storyConversation
         (serving (DoError "timeout" :: DoError "reset"
                   :: outcomes helpfulTransport)))
  = fst (mockSend "Hello" storyConversation helpfulTransport)
  /\ calls (snd (mockSend "Hello" storyConversation
                   (serving (DoError "timeout" :: DoError "reset"
                             :: outcomes helpfulTransport))))
     = 3%nat.
Proof.
  pose proof
    (Send_retries_are_transparent (H := MiniJson.decoder)
       ["timeout"; "reset"] 200
       (jsonBody (completionJSON " Hello! How can I help you?" "stop"
                    "10" "8"))
       [] [] hello_reaches_network
       ltac:(unfold retries; simpl; lia)) as (Hsame & Hcalls & _).
  split; [exact Hsame | exact Hcalls].
Defined.

Lemma Send_status_error_not_retried_witness :
  mockSend "Hello" storyConversation
    (serving [DoResponse 429 (jsonBody "slow down"); DoError "unused"])
  = (failed (ErrAPIStatus 429 "slow down"),
     AddMessage "user" "Hello" storyConversation,
     {| outcomes := [DoError "unused"];
        requests :=
          [sendRequest noSampling
             (AddMessage "user" "Hello" storyConversation)] |}).
Proof.
  apply (Send_status_error_not_retried (H := MiniJson.decoder)
           (status := 429) (jsonBody "slow down") [DoError "unused"] []
           hello_reaches_network eq_refl).
  discriminate.
Defined.

Lemma Send_gives_up_after_retries_witness :
  mockSend "Hello" storyConversation
    (serving [DoError "a"; DoError "b"; DoError "c"; DoError "d";
              DoError "unused"])
  = (failed (ErrHTTP 3 "d"),
     AddMessage "user" "Hello" storyConversation,
     {| outcomes := [DoError "unused"];
        requests :=
          repeat (sendRequest noSampling
                    (AddMessage "user" "Hello" storyConversation)) 4 |}).
Proof.
  exact (Send_gives_up_after_retries (H := MiniJson.decoder)
           "a" "b" "c" "d" [DoError "unused"] [] hello_reaches_network).
Defined.

(** ** The stream decoder: callback, sentinel and read errors *)

Section StreamDecoderProperties.
Context `{Json}.

Lemma sseLine_invariant (line : string) (st : SSEState) :
  callbackInvariant st ->
  match sseLine true line st with
  | Continue st' => callbackInvariant st'
  | Break st' =>
      accumulated st' = accumulated st
      /\ sseStopReason st' = sseStopReason st
      /\ callbackCalls st' = callbackCalls st ++ [(EmptyString, true)]
  end.
Proof.
  intros Hinv. unfold sseLine.
  destruct (negb (HasPrefix line "data: ")); [exact Hinv |].
  destruct (TrimPrefix line "data: " =? "[DONE]"); [now simpl |].
  destruct (unmarshalChunk (TrimPrefix line "data: ")) as [chunk |];
    [| exact Hinv].
  destruct (ChunkChoices chunk) as [| choice rest]; [exact Hinv |].
  assert (Hnext : callbackInvariant
                    (if negb (ChunkText choice =? EmptyString)
                     then {| accumulated :=
                               (accumulated st ++ ChunkText choice)%string;
                             sseStopReason := sseStopReason st;
                             callbackCalls :=
                               callbackCalls st
                               ++ [(ChunkText choice, false)] |}
                     else st)).
  { destruct (String.eqb_spec (ChunkText choice) EmptyString) as [He | Hne];
      [exact Hinv |].
    destruct Hinv as (texts & Hcalls & Hne' & Hjoin).
    exists (texts ++ [ChunkText choice]). simpl. repeat split.
    - unfold incrementCalls in *. now rewrite Hcalls, map_app.
    - apply Forall_app. split; [exact Hne' | now constructor].
    - rewrite joinAll_app, Hjoin. unfold joinAll. simpl.
      now rewrite sapp_nil_r. }
  destruct (ChunkFinishReason choice) as [r |]; [| exact Hnext].
  destruct (negb (r =? EmptyString)); [| exact Hnext].
  destruct Hnext as (texts & Hcalls & Hne & Hjoin).
  now exists texts.
Qed.

Lemma sseLoop_invariant (lines : list ScanLine) (atEnd : option string) :
  forall st : SSEState,
    callbackInvariant st ->
    exists (texts : list string) (closing : list (string * bool)),
      callbackCalls (fst (sseLoop true lines atEnd st))
      = incrementCalls texts ++ closing
      /\ Forall (fun text => text <> EmptyString) texts
      /\ joinAll texts = accumulated (fst (sseLoop true lines atEnd st))
      /\ (closing = [] \/ closing = [(EmptyString, true)]).
Proof.
  induction lines as [| l lines IH]; intros st Hinv; simpl.
  - destruct Hinv as (texts & Hcalls & Hne & Hjoin).
    exists texts, []. rewrite app_nil_r. auto.
  - pose proof (sseLine_invariant (lineText l) Hinv) as Hstep.
    destruct (sseLine true (lineText l) st) as [st' | st'].
    + now apply IH.
    + destruct Hstep as (Hacc & _ & Hcalls).
      destruct Hinv as (texts & Hc & Hne & Hjoin).
      exists texts, [(EmptyString, true)]. simpl.
      rewrite Hcalls, Hc, Hacc. auto.
Qed.

(** X9: the concatenation law of the decoder.  The calls a callback
    receives are the increments, each with a text that is not empty and
    done unset, followed by at most one closing call with the empty text
    and done set; the increments joined are the text the decoder
    returns. *)
Theorem parseSSEStream_callback_law (body : Body) :
  exists (texts : list string) (closing : list (string * bool)),
    snd (parseSSEStream body true) = incrementCalls texts ++ closing
    /\ Forall (fun text => text <> EmptyString) texts
    /\ joinAll texts = fst (fst (fst (parseSSEStream body true)))
    /\ (closing = [] \/ closing = [(EmptyString, true)]).
Proof.
  unfold parseSSEStream.
  assert (Hstart : callbackInvariant
                     {| accumulated := EmptyString;
                        sseStopReason := EmptyString;
                        callbackCalls := [] |}).
  { exists []. repeat split. constructor. }
  destruct (sseLoop_invariant (scanLines body) (scanErr body) Hstart)
    as (texts & closing & Hcalls & Hne & Hjoin & Hclosing).
  exists texts, closing.
  destruct (sseLoop true (scanLines body) (scanErr body) _) as [st e].
  simpl in *. destruct e; simpl; auto.
Qed.

(** The callback does not steer the loop: with and without one the loop
    takes the same branch and keeps the same text and stop reason. *)
Lemma sseLine_callback_free (line : string) (st st0 : SSEState) :
  accumulated st0 = accumulated st ->
  sseStopReason st0 = sseStopReason st ->
  callbackCalls st0 = [] ->
  match sseLine true line st, sseLine false line st0 with
  | Continue st', Continue st0' | Break st', Break st0' =>
      accumulated st0' = accumulated st'
      /\ sseStopReason st0' = sseStopReason st'
      /\ callbackCalls st0' = []
  | _, _ => False
  end.
Proof.
  intros Hacc Hstop Hcalls. unfold sseLine.
  destruct (negb (HasPrefix line "data: ")); [auto |].
  destruct (TrimPrefix line "data: " =? "[DONE]"); [simpl; auto |].
  destruct (unmarshalChunk (TrimPrefix line "data: ")) as [chunk |];
    [| auto].
  destruct (ChunkChoices chunk) as [| choice rest]; [auto |].
  destruct (negb (ChunkText choice =? EmptyString));
    destruct (ChunkFinishReason choice) as [r |];
    try destruct (negb (r =? EmptyString)); simpl; rewrite ?Hacc; auto.
Qed.

Lemma sseLoop_callback_free (lines : list ScanLine) (atEnd : option string) :
  forall st st0 : SSEState,
    accumulated st0 = accumulated st ->
    sseStopReason st0 = sseStopReason st ->
    callbackCalls st0 = [] ->
    accumulated (fst (sseLoop false lines atEnd st0))
    = accumulated (fst (sseLoop true lines atEnd st))
    /\ sseStopReason (fst (sseLoop false lines atEnd st0))
       = sseStopReason (fst (sseLoop true lines atEnd st))
    /\ callbackCalls (fst (sseLoop false lines atEnd st0)) = []
    /\ snd (sseLoop false lines atEnd st0)
       = snd (sseLoop true lines atEnd st).
Proof.
  induction lines as [| l lines IH]; intros st st0 Hacc Hstop Hcalls; simpl.
  - auto.
  - pose proof (@sseLine_callback_free (lineText l) st st0
                  Hacc Hstop Hcalls) as Hstep.
    destruct (sseLine true (lineText l) st) as [st' | st'],
             (sseLine false (lineText l) st0) as [st0' | st0'];
      try contradiction.
    + destruct Hstep as (Ha & Hs & Hc). now apply IH.
    + destruct Hstep as (Ha & Hs & Hc). simpl. auto.
Qed.

(** X10: a nil callback is safe and changes nothing else: the decoder
    returns the same text, stop reason and error as with a callback, and
    no call is made. *)
Theorem parseSSEStream_without_callback (body : Body) :
  fst (parseSSEStream body false) = fst (parseSSEStream body true)
  /\ snd (parseSSEStream body false) = [].
Proof.
  unfold parseSSEStream.
  destruct (sseLoop_callback_free (scanLines body) (scanErr body)
              {| accumulated := EmptyString; sseStopReason := EmptyString;
                 callbackCalls := [] |}
              {| accumulated := EmptyString; sseStopReason := EmptyString;
                 callbackCalls := [] |} eq_refl eq_refl eq_refl)
    as (Hacc & Hstop & Hcalls & Herr).
  destruct (sseLoop false (scanLines body) (scanErr body) _) as [st0 e0].
  destruct (sseLoop true (scanLines body) (scanErr body) _) as [st e].
  simpl in *. subst e0. rewrite Hacc, Hstop, Hcalls.
  now destruct e.
Qed.

Lemma sseLine_done (callback : bool) (st : SSEState) :
  exists st', sseLine callback "data: [DONE]" st = Break st'.
Proof. unfold sseLine. simpl. eexists. reflexivity. Qed.

(** X11: the sentinel ends the decoding.  Whatever follows the first line
    data: [DONE] is not looked at, and the error the scanner would stop
    with at the end of the body is not reported. *)
Theorem parseSSEStream_stops_at_done (callback : bool) (body : Body)
    (pre : list ScanLine) (done : ScanLine) (rest : list ScanLine) :
  scanLines body = pre ++ done :: rest -> isDoneLine done ->
  parseSSEStream body callback
  = parseSSEStream
      {| bodyData := bodyData body; bodyErr := bodyErr body;
         scanLines := pre ++ [done]; scanErr := None |} callback.
Proof.
  unfold isDoneLine, parseSSEStream. intros -> Hdone. cbn [scanLines scanErr].
  assert (Hloop : forall st,
             sseLoop callback (pre ++ done :: rest) (scanErr body) st
             = sseLoop callback (pre ++ [done]) None st).
  { induction pre as [| x pre IH]; intros st; simpl.
    - rewrite Hdone.
      destruct (sseLine_done callback st) as [st' ->]. reflexivity.
    - destruct (sseLine callback (lineText x) st); [apply IH | reflexivity]. }
  now rewrite Hloop.
Qed.

Lemma sseLoop_read_error (callback : bool) (lines : list ScanLine) :
  Forall (fun l => ~ isDoneLine l) lines ->
  forall (atEnd : option string) (st : SSEState),
    sseLoop callback lines atEnd st
    = (fst (sseLoop callback lines None st), atEnd).
Proof.
  induction 1 as [| l lines Hl Hlines IH]; intros atEnd st; simpl.
  - reflexivity.
  - destruct (sseLine callback (lineText l) st) as [st' | st'] eqn:Hline.
    + apply IH.
    + apply sseLine_break in Hline. contradiction.
Qed.

(** X12: a read error on a stream without sentinel is reported together
    with everything decoded before it: the text, the stop reason and the
    callback calls are those of the same lines ending without error. *)
Theorem parseSSEStream_read_error (callback : bool) (body : Body)
    (cause : string) :
  Forall (fun l => ~ isDoneLine l) (scanLines body) ->
  scanErr body = Some cause ->
  exists (text stop : string) (cbs : list (string * bool)),
    parseSSEStream (endingWith body None) callback = (text, stop, None, cbs)
    /\ parseSSEStream body callback
       = (text, stop, Some (ErrReadStream cause), cbs).
Proof.
  intros Hlines Herr. unfold parseSSEStream, endingWith.
  cbn [scanLines scanErr]. rewrite Herr.
  rewrite (sseLoop_read_error callback Hlines (Some cause)).
  rewrite (sseLoop_read_error callback Hlines None).
  do 3 eexists. split; reflexivity.
Qed.

End StreamDecoderProperties.

Lemma parseSSEStream_stops_at_done_witness :
  parseSSEStream (H := MiniJson.decoder)
    {| bodyData := EmptyString; bodyErr := None;
       scanLines :=
         [dataLine helPayload]
         ++ {| lineText := "data: [DONE]"; pendingErr := None |}
            :: [dataLine loPayload];
       scanErr := Some "connection reset" |} true
  = ("Hel", EmptyString, None, [("Hel", false); (EmptyString, true)]).
Proof.
  rewrite (parseSSEStream_stops_at_done (H := MiniJson.decoder) true
             {| bodyData := EmptyString; bodyErr := None;
                scanLines :=
                  [dataLine helPayload]
                  ++ {| lineText := "data: [DONE]"; pendingErr := None |}
                     :: [dataLine loPayload];
                scanErr := Some "connection reset" |}
             [dataLine helPayload] [dataLine loPayload] eq_refl eq_refl).
  reflexivity.
Defined.

Lemma parseSSEStream_read_error_witness :
  parseSSEStream (H := MiniJson.decoder)
    {| bodyData := EmptyString; bodyErr := None;
       scanLines := [dataLine helPayload; keepAliveLine];
       scanErr := Some "connection reset" |} true
  = ("Hel", EmptyString, Some (ErrReadStream "connection reset"),
     [("Hel", false)]).
Proof.
  destruct (parseSSEStream_read_error (H := MiniJson.decoder) true
              {| bodyData := EmptyString; bodyErr := None;
                 scanLines := [dataLine helPayload; keepAliveLine];
                 scanErr := Some "connection reset" |}
              (cause := "connection reset"))
    as (text & stop & cbs & Hok & Herr).
  - repeat constructor; discriminate.
  - reflexivity.
  - rewrite Herr. vm_compute in Hok. now injection Hok as <- <- <-.
Defined.

(** ** Streaming send *)

Section StreamingFailureProperties.
Context `{Json}.

(** The decoder fails in one way only: on a read error of the stream. *)
Lemma parseSSEStream_error_kind (body : Body) (callback : bool) :
  match snd (fst (parseSSEStream body callback)) with
  | None | Some (ErrReadStream _) => True
  | Some _ => False
  end.
Proof.
  unfold parseSSEStream.
  destruct (sseLoop callback (scanLines body) (scanErr body) _) as [st e].
  now destruct e.
Qed.

(** X13: a streaming call that fails leaves the usage counters as they
    were, appends no assistant turn, keeps the user turn when the
    credential check had passed, and reports no tokens.  Unless the
    failure is a read error of the stream, the callback has not been
    called and no text is returned; the callback log only ever grows. *)
Theorem SendStreaming_failure (text : string) (callback : bool)
    (c : Conversation) (tr : Transport) (log : list (string * bool))
    (out : SendOut) (c' : Conversation)
    (w' : Transport * list (string * bool)) (e : SendError) :
  SendStreaming text callback c (tr, log) = (out, c', w') ->
  err out = Some e ->
  Messages c' = Messages c ++ keptUserTurn c text
  /\ ConvUsage c' = ConvUsage c
  /\ inputTokens out = 0%Z /\ outputTokens out = 0%Z
  /\ ((forall cause, e <> ErrReadStream cause) ->
      reply out = EmptyString /\ snd w' = log)
  /\ exists cbs, snd w' = log ++ cbs.
Proof.
  unfold SendStreaming, keptUserTurn.
  destruct (ApiToken c =? EmptyString) eqn:Htok.
  { intros [= <- <- <-] _. simpl. rewrite app_nil_r.
    repeat split; auto. exists []. now rewrite app_nil_r. }
  destruct (addUserTurn text c) as [c1 |] eqn:Hadd.
  2:{ intros [= <- <- <-] _. simpl.
      apply addUserTurn_none in Hadd as [-> _]. simpl. rewrite app_nil_r.
      repeat split; auto. exists []. now rewrite app_nil_r. }
  apply addUserTurn_messages in Hadd as [Hms Hus]. cbn [orb].
  assert (Hkept : Messages c1 = Messages c
                  ++ (if text =? EmptyString then [] else [userTurn text]))
    by exact Hms.
  match goal with
  | |- context [marshalOk ?r] => destruct (marshalOk r)
  end; cbn [negb].
  2:{ intros [= <- <- <-] _. simpl. repeat split; auto.
      exists []. now rewrite app_nil_r. }
  match goal with
  | |- context [doWithRetries ?n ?r ?t] =>
      destruct (doWithRetries n r t) as [[cause | status body] tr1]
  end.
  { intros [= <- <- <-] _. simpl. repeat split; auto.
    exists []. now rewrite app_nil_r. }
  destruct (negb (status =? StatusOK)%Z).
  { intros [= <- <- <-] _. simpl. repeat split; auto.
    exists []. now rewrite app_nil_r. }
  pose proof (parseSSEStream_error_kind body callback) as Hkind.
  destruct (parseSSEStream body callback) as [[[r sr] perr] cbs].
  destruct perr as [pe |]; [| intros [= <- <- <-]; discriminate].
  simpl in Hkind. destruct pe; try contradiction.
  intros [= <- <- <-] [= <-]. simpl.
  split; [auto |]. split; [auto |]. split; [auto |]. split; [auto |].
  split; [| now exists cbs].
  intros Hno. exfalso. now apply (Hno cause).
Qed.

End StreamingFailureProperties.

(** ** The continuation loops *)

Section LoopProperties.
Variable W : Type.
Variable send : string -> Conversation -> W -> SendOut * Conversation * W.

(** X14: the loop after any number of truncated answers.  When the calls
    return the stop reason max_tokens [length ps] times and then a reply
    with another stop reason, the loop returns all replies joined in
    order, the token counts summed, the last stop reason, and the
    conversation merged once more after the last call. *)
Theorem untilDone_completes (text : string) (c0 : Conversation) (w0 : W)
    (ps : list SendOut) (input : string) (ck : Conversation) (wk : W)
    (final : SendOut) (cf : Conversation) (wf : W) (fuel : nat) :
  truncatedRun send text c0 w0 ps input ck wk ->
  send input ck wk = (final, cf, wf) ->
  err final = None -> stopReason final <> "max_tokens" ->
  (length ps < fuel)%nat ->
  untilDone send fuel text c0 w0
  = Some ({| reply := (joinReplies ps ++ reply final)%string;
             stopReason := stopReason final;
             inputTokens :=
               int_add (sumTokens inputTokens 0 ps) (inputTokens final);
             outputTokens :=
               int_add (sumTokens outputTokens 0 ps) (outputTokens final);
             err := None |}, MergeIfLastTwoAssistant cf, wf).
Proof.
  intros Hrun Hsend Herr Hstop Hfuel.
  replace fuel with (length ps + S (fuel - length ps - 1))%nat by lia.
  unfold untilDone. rewrite (untilDoneFrom_run Hrun).
  now erewrite untilDoneFrom_final; eauto.
Qed.

(** X15: the loop has no bound of its own.  Around a call that never fails
    and always reports max_tokens it makes one call per unit of fuel and
    never returns. *)
Theorem untilDone_has_no_iteration_limit :
  (forall input c w,
      err (fst (fst (send input c w))) = None
      /\ stopReason (fst (fst (send input c w))) = "max_tokens") ->
  forall (fuel : nat) (text : string) (c : Conversation) (w : W),
    untilDone send fuel text c w = None.
Proof.
  intros Halways fuel text c w. unfold untilDone.
  assert (Hloop : forall (n : nat) (input total : string) (inTok outTok : Z)
                         (c1 : Conversation) (w1 : W),
             untilDoneFrom send n input total inTok outTok c1 w1 = None).
  { induction n as [| n IH]; intros input total inTok outTok c1 w1;
      [reflexivity |].
    simpl. destruct (Halways input c1 w1) as [Herr Hstop].
    destruct (send input c1 w1) as [[part c2] w2]. simpl in Herr, Hstop.
    rewrite Herr, Hstop. simpl. apply IH. }
  apply Hloop.
Qed.

End LoopProperties.

Lemma untilDone_completes_witness :
  option_map (fun r => fst (fst r))
    (untilDone mockSend 5 "Tell me a story." storyConversation storyTransport)
  = Some {| reply := "Once upon a time."; stopReason := "end_turn";
            inputTokens := 36; outputTokens := 5; err := None |}.
Proof.
  pose (r1 := mockSend "Tell me a story." storyConversation storyTransport).
  pose (r2 := mockSend EmptyString
                (MergeIfLastTwoAssistant (snd (fst r1))) (snd r1)).
  pose (r3 := mockSend EmptyString
                (MergeIfLastTwoAssistant (snd (fst r2))) (snd r2)).
  rewrite (untilDone_completes (send := mockSend)
             (ps := [fst (fst r1); fst (fst r2)])
             (input := EmptyString)
             (ck := MergeIfLastTwoAssistant (snd (fst r2))) (wk := snd r2)
             (final := fst (fst r3)) (cf := snd (fst r3)) (wf := snd r3)
             (fuel := 5)).
  - reflexivity.
  - eapply run_more; [reflexivity | reflexivity | reflexivity |].
    eapply run_more; [reflexivity | reflexivity | reflexivity |].
    apply run_done.
  - reflexivity.
  - reflexivity.
  - intros Hstop. vm_compute in Hstop. discriminate Hstop.
  - simpl. lia.
Defined.

Lemma untilDone_has_no_iteration_limit_witness :
  untilDone alwaysTruncated 100 "Go on." storyConversation 0%nat = None.
Proof.
  apply untilDone_has_no_iteration_limit.
  intros input c w. split; reflexivity.
Defined.

Section SendLoopProperties.
Context `{Json}.

(** What a call of [Send] leaves in the history. *)
Lemma Send_messages (text : string) (sampling : Sampling)
    (c : Conversation) (w : Transport) :
  Messages (snd (fst (Send text sampling c w)))
  = match err (fst (fst (Send text sampling c w))) with
    | Some _ => Messages c ++ keptUserTurn c text
    | None =>
        Messages c
        ++ (if text =? EmptyString then [] else [userTurn text])
        ++ [assistantReply (reply (fst (fst (Send text sampling c w))))]
    end.
Proof.
  unfold Send, keptUserTurn.
  destruct (ApiToken c =? EmptyString) eqn:Htok.
  { simpl. now rewrite app_nil_r. }
  destruct (addUserTurn text c) as [c1 |] eqn:Hadd.
  2:{ simpl. apply addUserTurn_none in Hadd as [-> _]. simpl.
      now rewrite app_nil_r. }
  apply addUserTurn_messages in Hadd as [Hms Hus]. cbn [orb].
  match goal with
  | |- context [marshalOk ?r] => destruct (marshalOk r)
  end; cbn [negb]; [| exact Hms].
  match goal with
  | |- context [doWithRetries ?n ?r ?t] =>
      destruct (doWithRetries n r t) as [[cause | status body] w1]
  end; [exact Hms |].
  destruct (bodyErr body); [exact Hms |].
  destruct (negb (status =? StatusOK)%Z); [exact Hms |].
  destruct (unmarshalResponse (bodyData body)) as [compResp |];
    [| exact Hms].
  destruct (Choices compResp) as [| choice rest]; [exact Hms |].
  simpl. now rewrite Hms, <- app_assoc.
Qed.

(** The merge after a call that continued an assistant turn. *)
Lemma merge_after_continuation (c : Conversation) (pre : list Message)
    (x r : string) :
  Messages c = pre ++ [assistantReply x; assistantReply r] ->
  Messages (MergeIfLastTwoAssistant c)
  = pre ++ [assistantReply (mergeContent x r)].
Proof.
  intros Hms. simpl. rewrite Hms.
  now rewrite mergeLastTwo_merges.
Qed.

(** Once the history closes with an assistant turn, the loop keeps
    everything before that turn and only rewrites the turn. *)
Lemma continuation_in_place (sampling : Sampling) (pre : list Message) :
  forall (fuel : nat) (total : string) (inTok outTok : Z)
         (c : Conversation) (w : Transport) (x : string)
         (out : SendOut) (c' : Conversation) (w' : Transport),
    Messages c = pre ++ [assistantReply x] ->
    untilDoneFrom (fun input => Send input sampling) fuel EmptyString
      total inTok outTok c w = Some (out, c', w') ->
    exists x', Messages c' = pre ++ [assistantReply x'].
Proof.
  induction fuel as [| fuel IH];
    intros total inTok outTok c w x out c' w' Hms; [discriminate |].
  simpl. pose proof (Send_messages EmptyString sampling c w) as Hsend.
  destruct (Send EmptyString sampling c w) as [[part c1] w1].
  simpl in Hsend. destruct (err part) as [e |].
  - intros [= <- <- <-]. exists x.
    unfold keptUserTurn in Hsend. rewrite orb_true_r, app_nil_r in Hsend.
    now rewrite Hsend.
  - simpl in Hsend. rewrite Hms, <- app_assoc in Hsend. simpl in Hsend.
    pose proof (merge_after_continuation c1 pre x (reply part) Hsend)
      as Hmerged.
    destruct (negb (stopReason part =? "max_tokens")).
    + intros [= <- <- <-]. now exists (mergeContent x (reply part)).
    + intros Hloop. exact (IH _ _ _ _ _ _ _ _ _ Hmerged Hloop).
Qed.

(** X16: continuing a conversation that closes with an assistant turn
    extends that turn in place.  Whatever the outcome, [SendUntilDone]
    with the empty text leaves every earlier message as it was and the
    history as long as it was: only the content of the last turn
    changes. *)
Theorem SendUntilDone_continues_in_place (fuel : nat) (sampling : Sampling)
    (c : Conversation) (w : Transport) (pre : list Message) (x : string)
    (out : SendOut) (c' : Conversation) (w' : Transport) :
  Messages c = pre ++ [assistantReply x] ->
  SendUntilDone fuel EmptyString sampling c w = Some (out, c', w') ->
  exists x', Messages c' = pre ++ [assistantReply x'].
Proof.
  intros Hms Hloop. unfold SendUntilDone, untilDone in Hloop.
  exact (continuation_in_place sampling pre fuel _ _ _ c w x Hms Hloop).
Qed.

(** X17: a successful [SendUntilDone] with a text adds one exchange to the
    history, however many requests the answer took: the user turn with
    the text and a single assistant turn. *)
Theorem SendUntilDone_adds_one_exchange (fuel : nat) (text : string)
    (sampling : Sampling) (c : Conversation) (w : Transport)
    (out : SendOut) (c' : Conversation) (w' : Transport) :
  text <> EmptyString ->
  SendUntilDone fuel text sampling c w = Some (out, c', w') ->
  err out = None ->
  exists content,
    Messages c' = Messages c ++ [userTurn text; assistantReply content].
Proof.
  intros Htext Hloop Hok. unfold SendUntilDone, untilDone in Hloop.
  destruct fuel as [| fuel]; [discriminate |]. simpl in Hloop.
  pose proof (Send_messages text sampling c w) as Hsend.
  destruct (Send text sampling c w) as [[part c1] w1].
  simpl in Hsend. destruct (err part) as [e |].
  { injection Hloop as <- _ _. discriminate. }
  apply String.eqb_neq in Htext. rewrite Htext in Hsend. simpl in Hsend.
  assert (Hmerged : Messages (MergeIfLastTwoAssistant c1)
                    = (Messages c ++ [userTurn text])
                      ++ [assistantReply (reply part)]).
  { simpl. rewrite Hsend, mergeLastTwo_snoc2. simpl.
    now rewrite <- app_assoc. }
  destruct (negb (stopReason part =? "max_tokens")).
  - injection Hloop as _ <- _. exists (reply part).
    now rewrite Hmerged, <- app_assoc.
  - destruct (continuation_in_place sampling (Messages c ++ [userTurn text])
                fuel _ _ _ _ w1 (reply part) Hmerged Hloop) as [x' Hx].
    exists x'. now rewrite Hx, <- app_assoc.
Qed.

(** [SendStreaming] reports no input tokens. *)
Lemma SendStreaming_input_tokens (text : string) (callback : bool)
    (c : Conversation) (w : Transport * list (string * bool)) :
  inputTokens (fst (fst (SendStreaming text callback c w))) = 0%Z.
Proof.
  unfold SendStreaming. destruct w as [tr log].
  destruct (ApiToken c =? EmptyString); [reflexivity |].
  destruct (addUserTurn text c) as [c1 |]; [| reflexivity].
  match goal with
  | |- context [marshalOk ?r] => destruct (marshalOk r)
  end; cbn [negb]; [| reflexivity].
  match goal with
  | |- context [doWithRetries ?n ?r ?t] =>
      destruct (doWithRetries n r t) as [[cause | status body] tr1]
  end; [reflexivity |].
  destruct (negb (status =? StatusOK)%Z); [reflexivity |].
  destruct (parseSSEStream body callback) as [[[r sr] perr] cbs].
  now destruct perr.
Qed.

(** X18: [SendStreamingUntilDone] never reports input tokens: whatever the
    streams carried and however many continuations it took, the input
    count it returns is zero. *)
Theorem SendStreamingUntilDone_input_tokens (fuel : nat) (text : string)
    (callback : bool) (c : Conversation)
    (w : Transport * list (string * bool)) :
  match SendStreamingUntilDone fuel text callback c w with
  | Some (out, _, _) => inputTokens out = 0%Z
  | None => True
  end.
Proof.
  unfold SendStreamingUntilDone, untilDone.
  assert (Hloop : forall (n : nat) (input total : string) (outTok : Z)
                         (c1 : Conversation)
                         (w1 : Transport * list (string * bool)),
             match untilDoneFrom
                     (fun input => SendStreaming input callback)
                     n input total 0 outTok c1 w1 with
             | Some (out, _, _) => inputTokens out = 0%Z
             | None => True
             end).
  { induction n as [| n IH]; intros input total outTok c1 w1;
      [exact I |].
    simpl. pose proof (SendStreaming_input_tokens input callback c1 w1)
      as Hzero.
    destruct (SendStreaming input callback c1 w1) as [[part c2] w2].
    simpl in Hzero. destruct (err part); [reflexivity |].
    rewrite Hzero. change (int_add 0 0) with 0%Z.
    destruct (negb (stopReason part =? "max_tokens"));
      [reflexivity | apply IH]. }
  apply Hloop.
Qed.

End SendLoopProperties.

Lemma SendUntilDone_continues_in_place_witness :
  exists x',
    option_map (fun r => Messages (snd (fst r)))
      (SendUntilDone (H := MiniJson.decoder) 2 EmptyString noSampling
         truncatedConversation finishingTransport)
    = Some ([ {| Role := "user"; Content := "Tell me a story." |} ]
            ++ [assistantReply x']).
Proof.
  let v := eval vm_compute in
    (SendUntilDone (H := MiniJson.decoder) 2 EmptyString noSampling
       truncatedConversation finishingTransport) in
  pose proof (eq_refl
              : SendUntilDone (H := MiniJson.decoder) 2 EmptyString
                  noSampling truncatedConversation finishingTransport
                = v) as Hrun.
  destruct (SendUntilDone_continues_in_place (H := MiniJson.decoder)
              2 noSampling truncatedConversation finishingTransport
              [ {| Role := "user"; Content := "Tell me a story." |} ]
              "Once upon" eq_refl Hrun) as [x' Hx].
  exists x'. rewrite Hrun. unfold option_map. cbn [fst snd].
  f_equal. exact Hx.
Defined.

Lemma SendUntilDone_adds_one_exchange_witness :
  exists content,
    option_map (fun r => Messages (snd (fst r)))
      (SendUntilDone (H := MiniJson.decoder) 3 "Tell me a story."
         noSampling storyConversation storyTransport)
    = Some (Messages storyConversation
            ++ [userTurn "Tell me a story."; assistantReply content]).
Proof.
  let v := eval vm_compute in
    (SendUntilDone (H := MiniJson.decoder) 3 "Tell me a story." noSampling
       storyConversation storyTransport) in
  pose proof (eq_refl
              : SendUntilDone (H := MiniJson.decoder) 3 "Tell me a story."
                  noSampling storyConversation storyTransport
                = v) as Hrun.
  assert (Htext : "Tell me a story." <> EmptyString) by discriminate.
  destruct (SendUntilDone_adds_one_exchange (H := MiniJson.decoder)
              3 noSampling storyConversation storyTransport
              Htext Hrun eq_refl) as [content Hc].
  exists content. rewrite Hrun. unfold option_map. cbn [fst snd].
  f_equal. exact Hc.
Defined.

Lemma SendStreaming_failure_witness :
  Messages (snd (fst (mockSendStreaming "Hello" storyConversation
                        (overloadedTransport, []))))
  = [ {| Role := "user"; Content := "Hello" |} ]
  /\ ConvUsage (snd (fst (mockSendStreaming "Hello" storyConversation
                            (overloadedTransport, []))))
     = {| InputTokens := 0; OutputTokens := 0 |}
  /\ snd (snd (mockSendStreaming "Hello" storyConversation
                 (overloadedTransport, [])))
     = [].
Proof.
  destruct (SendStreaming_failure (H := MiniJson.decoder)
              "Hello" true storyConversation overloadedTransport []
              (out := fst (fst (mockSendStreaming "Hello" storyConversation
                                  (overloadedTransport, []))))
              (c' := snd (fst (mockSendStreaming "Hello" storyConversation
                                 (overloadedTransport, []))))
              (w' := snd (mockSendStreaming "Hello" storyConversation
                            (overloadedTransport, [])))
              (e := ErrAPIStatus 500 "overloaded") eq_refl eq_refl)
    as (Hms & Hus & _ & _ & Hquiet & _).
  split; [exact Hms | split; [exact Hus |]].
  apply Hquiet. discriminate.
Defined.

(** ** Rich content *)

Lemma fold_writeBlock (blocks : list ContentBlock) :
  forall text : string,
    fold_left writeBlock blocks text
    = (text ++ fold_left writeBlock blocks EmptyString)%string.
Proof.
  induction blocks as [| b blocks IH]; intros text; simpl.
  - now rewrite sapp_nil_r.
  - rewrite IH, (IH (writeBlock EmptyString b)), <- sapp_assoc. f_equal.
    unfold writeBlock.
    destruct (BlockType b); [reflexivity | | now rewrite sapp_nil_r].
    destruct (BlockThinking b); [| now rewrite sapp_nil_r].
    cbn [String.append]. now rewrite !sapp_assoc.
Qed.

Lemma extractTextFromBlocks_fold (blocks : list ContentBlock) :
  extractTextFromBlocks blocks = fold_left writeBlock blocks EmptyString.
Proof. unfold extractTextFromBlocks. now destruct blocks. Qed.

(** X19: the text of a list of blocks is the text of its parts joined:
    extraction keeps the order of the blocks and adds nothing between
    them. *)
Theorem extractTextFromBlocks_app (a b : list ContentBlock) :
  extractTextFromBlocks (a ++ b)
  = (extractTextFromBlocks a ++ extractTextFromBlocks b)%string.
Proof.
  rewrite !extractTextFromBlocks_fold, fold_left_app.
  apply fold_writeBlock.
Qed.

Lemma writeBlock_unwritten (text : string) (b : ContentBlock) :
  writtenBlock b = false -> writeBlock text b = text.
Proof.
  unfold writtenBlock, writeBlock.
  destruct (BlockType b); [discriminate | | reflexivity].
  now destruct (BlockThinking b).
Qed.

Lemma extractTextFromBlocks_unwritten (blocks : list ContentBlock) :
  Forall (fun b => writtenBlock b = false) blocks ->
  extractTextFromBlocks blocks = EmptyString.
Proof.
  intros Hnone. rewrite extractTextFromBlocks_fold.
  assert (Hfold : forall text, fold_left writeBlock blocks text = text);
    [| apply Hfold].
  induction Hnone as [| b bs Hb _ IH]; intros text; simpl; [reflexivity |].
  now rewrite (writeBlock_unwritten text b Hb).
Qed.

(** X20: only text blocks and thinking blocks that hold a thinking text
    are extracted; every other block (an image, a tool call, a thinking
    block with a nil pointer) can be dropped without changing the text. *)
Theorem extractTextFromBlocks_written_only (blocks : list ContentBlock) :
  extractTextFromBlocks blocks
  = extractTextFromBlocks (filter writtenBlock blocks).
Proof.
  rewrite !extractTextFromBlocks_fold.
  generalize EmptyString as text.
  induction blocks as [| b blocks IH]; intros text; simpl; [reflexivity |].
  destruct (writtenBlock b) eqn:Hb; simpl; [apply IH |].
  rewrite (writeBlock_unwritten text b Hb). apply IH.
Qed.

Section RichProperties.
Variable NewTextBlock : string -> ContentBlock.
Hypothesis NewTextBlock_text :
  forall text,
    BlockType (NewTextBlock text) = ContentTypeText
    /\ BlockText (NewTextBlock text) = text.

(** X21: rich messages round-trip through the plain history.  Extracting
    the text of every message [GetRichMessages] returns gives back the
    roles and contents of the history, provided [NewTextBlock] builds a
    text block around its argument. *)
Theorem GetRichMessages_round_trip (c : Conversation) :
  map (fun rm => {| Role := RichRole rm;
                    Content := extractTextFromBlocks (RichContent rm) |})
    (GetRichMessages NewTextBlock c)
  = Messages c.
Proof.
  unfold GetRichMessages. rewrite map_map.
  induction (Messages c) as [| m ms IH]; [reflexivity |].
  cbn [map]. f_equal; [| exact IH].
  unfold extractTextFromBlocks, writeBlock. simpl.
  destruct (NewTextBlock_text (Content m)) as [-> ->].
  now destruct m.
Qed.

Context `{Json}.

(** X22: rich content without text is an empty input.  When no block of
    the content is a text block or a thinking block with a text,
    [SendRich] behaves as with no content at all: no user turn is
    appended and the call continues from the history as it stands. *)
Theorem SendRich_without_text (content : list ContentBlock)
    (sampling : Sampling) (c : Conversation) (w : Transport) :
  Forall (fun b => writtenBlock b = false) content ->
  SendRich NewTextBlock content sampling c w
  = SendRich NewTextBlock [] sampling c w.
Proof.
  intros Hnone. unfold SendRich.
  now rewrite (extractTextFromBlocks_unwritten Hnone).
Qed.

End RichProperties.

Lemma GetRichMessages_round_trip_witness :
  map (fun rm => {| Role := RichRole rm;
                    Content := extractTextFromBlocks (RichContent rm) |})
    (GetRichMessages textBlock mergeTestConversation)
  = Messages mergeTestConversation.
Proof.
  apply GetRichMessages_round_trip. intros text. split; reflexivity.
Defined.

Lemma SendRich_without_text_witness :
  SendRich (H := MiniJson.decoder) textBlock [imageBlock] noSampling
    helloConversation helpfulTransport
  = SendRich (H := MiniJson.decoder) textBlock [] noSampling
      helloConversation helpfulTransport.
Proof.
  apply SendRich_without_text. repeat constructor.
Defined.

(** ** The token lookup *)

Lemma allWhite_app (a b : string) :
  allWhite a -> allWhite b -> allWhite (a ++ b)%string.
Proof.
  induction 1 as [| w s Hw _ IH]; intros Hb; [exact Hb |].
  rewrite sapp_assoc. constructor; [exact Hw | now apply IH].
Qed.

(** [TrimSpace] leaves nothing exactly of the strings that are white
    space throughout. *)
Lemma TrimSpace_empty_iff (s : string) :
  TrimSpace s = EmptyString <-> allWhite s.
Proof.
  split.
  - intros Hempty.
    destruct (TrimSpace_sound s) as [(l & r & Hs & Hl & Hr) _].
    rewrite Hempty in Hs. subst s. now apply allWhite_app.
  - intros Hall. apply TrimSpace_complete. repeat split.
    + exists s, EmptyString. rewrite sapp_nil_r.
      split; [reflexivity | split; [exact Hall | constructor]].
    + intros w rest Hw Heq. apply isSpaceToken_spec in Hw.
      pose proof (token_not_empty w Hw) as Hlen.
      apply (f_equal String.length) in Heq. rewrite length_sapp in Heq.
      simpl in Heq. lia.
    + intros w rest Hw Heq. apply isSpaceToken_spec in Hw.
      pose proof (token_not_empty w Hw) as Hlen.
      apply (f_equal String.length) in Heq. rewrite length_sapp in Heq.
      simpl in Heq. lia.
Qed.

(** X23: a token file that holds nothing but white space counts as
    missing.  With no NAI_API_KEY in the environment and token files that
    are unreadable or white space throughout, [init] leaves
    [DefaultApiToken] as it was. *)
Theorem init_ignores_blank_token_files (env : Environment)
    (token0 : string) :
  getenv env "NAI_API_KEY" = EmptyString ->
  (forall path data, readFile env path = Some data -> allWhite data) ->
  init env token0 = token0.
Proof.
  intros Henv Hfiles.
  assert (Hread : forall path, readTokenFile env path = EmptyString).
  { intros path. unfold readTokenFile.
    destruct (readFile env path) as [data |] eqn:Hdata; [| reflexivity].
    apply TrimSpace_empty_iff. exact (Hfiles _ _ Hdata). }
  unfold init. rewrite Henv.
  destruct (userHomeDir env) as [home |]; now rewrite !Hread.
Qed.

Lemma init_ignores_blank_token_files_witness :
  init blankTokenFile "fallback" = "fallback".
Proof.
  apply init_ignores_blank_token_files; [reflexivity |].
  intros path data. unfold blankTokenFile. cbn [readFile].
  destruct (path =? "/home/nai/.naitoken")%string; [| discriminate].
  intros [= <-]. now apply TrimSpace_empty_iff.
Defined.

(** X24: the environment variable wins.  A NAI_API_KEY that is not empty
    becomes the token as it is, surrounding white space included, whatever
    the token files hold; without it, a token read from a file has been
    trimmed, so the first of the two files with a trimmed content that is
    not empty supplies it. *)
Theorem init_priority (env : Environment) (token0 : string) :
  (getenv env "NAI_API_KEY" <> EmptyString ->
   init env token0 = getenv env "NAI_API_KEY")
  /\ (getenv env "NAI_API_KEY" = EmptyString ->
      forall home,
        userHomeDir env = Some home ->
        readTokenFile env (home ++ "/.naitoken")%string <> EmptyString ->
        init env token0 = readTokenFile env (home ++ "/.naitoken")%string)
  /\ (getenv env "NAI_API_KEY" = EmptyString ->
      (forall home,
          userHomeDir env = Some home ->
          readTokenFile env (home ++ "/.naitoken")%string = EmptyString) ->
      readTokenFile env ".naitoken" <> EmptyString ->
      init env token0 = readTokenFile env ".naitoken").
Proof.
  unfold init. repeat split.
  - intros Henv. apply String.eqb_neq in Henv. now rewrite Henv.
  - intros Henv home Hhome Hfile. rewrite Henv, Hhome. simpl.
    apply String.eqb_neq in Hfile. now rewrite Hfile.
  - intros Henv Hhome Hfile. rewrite Henv. simpl.
    apply String.eqb_neq in Hfile.
    destruct (userHomeDir env) as [home |]; [| now rewrite Hfile].
    rewrite (Hhome home eq_refl). simpl. now rewrite Hfile.
Qed.
